(** * Sprite-sheet generator ([scripts/generate-sprite.py])

    A shallow embedding of the frame renderer and the sheet assembler.

    The Python program draws through a handle ([draw]) on rasters that live
    on the interpreter's heap.  The embedding keeps that shape: rasters live
    in an object store, every drawing routine takes the handle and runs in a
    state-and-exception monad over the store, loops are monadic iterations
    over [range], and a list subscript that is out of range raises. *)

From stdpp Require Import base option list strings.
From Stdlib Require Import ZArith Lia.

#[local] Open Scope Z_scope.

(** ** Colours and rasters *)

(** An RGBA tuple [(r, g, b, a)]. *)
Definition Color : Type := Z * Z * Z * Z.

(** [color[3]] *)
Definition alpha (c : Color) : Z := let '(_, _, _, a) := c in a.

(** [( *color[:3], a)] : same RGB, another alpha. *)
Definition with_alpha (c : Color) (a : Z) : Color :=
  let '(r, g, b, _) := c in (r, g, b, a).

(** A colour whose four channels are bytes.  An RGBA raster stores such
    colours only, and every colour that the script builds is one. *)
Definition valid_color (c : Color) : Prop :=
  let '(r, g, b, a) := c in
  0 ≤ r ≤ 255 ∧ 0 ≤ g ≤ 255 ∧ 0 ≤ b ≤ 255 ∧ 0 ≤ a ≤ 255.

(** A PIL image: its size and its rows of pixels, top row first. *)
Record Image : Type := mkImage {
  im_width : Z;
  im_height : Z;
  im_rows : list (list Color)
}.

(** [Image.new('RGBA', (w, h), c)] as a value. *)
Definition blank (w h : Z) (c : Color) : Image :=
  mkImage w h (replicate (Z.to_nat h) (replicate (Z.to_nat w) c)).

Definition in_image (im : Image) (x y : Z) : bool :=
  (0 <=? x) && (x <? im_width im) && (0 <=? y) && (y <? im_height im).

(** [im.getpixel((x, y))]; [None] outside the image. *)
Definition getpixel (im : Image) (x y : Z) : option Color :=
  if in_image im x y
  then im_rows im !! Z.to_nat y ≫= (λ r, r !! Z.to_nat x)
  else None.

(** What [ImageDraw.point] does to the raster: PIL clips the point to the
    image and, the image and the drawing mode both being RGBA, stores the
    colour as it is (no compositing).  This is what PIL does with a colour
    of byte channels ([valid_color]); it clamps any other channel to 0..255
    before storing it, which is not modelled, so the statements about
    arbitrary colours below assume [valid_color]. *)
Definition putpixel (im : Image) (x y : Z) (c : Color) : Image :=
  if in_image im x y
  then mkImage (im_width im) (im_height im)
         (alter (λ r, <[Z.to_nat x := c]> r) (Z.to_nat y) (im_rows im))
  else im.

(** What [Image.paste(src, (ox, oy))] does to the destination raster: the
    whole of [src] is copied with its top-left corner at [(ox, oy)], clipped
    to the destination, without a mask. *)
Definition paste_image (dst src : Image) (box : Z * Z) : Image :=
  let '(ox, oy) := box in
  mkImage (im_width dst) (im_height dst)
    (imap (λ y r,
       imap (λ x p, default p (getpixel src (Z.of_nat x - ox) (Z.of_nat y - oy))) r)
       (im_rows dst)).

(** ** The object store and the monad of the program *)

(** A reference to an object of the store. *)
Abbreviation ref := nat.

(** The store: the rasters allocated so far, in allocation order. *)
Abbreviation Heap := (list Image).

(** A computation runs on a store and either returns a value and the new
    store, or raises (an uncaught exception ends the program, so the store
    it leaves is not kept). *)
Definition M (A : Type) : Type := Heap → option (A * Heap).

#[global] Instance M_ret : MRet M := λ A a σ, Some (a, σ).

#[global] Instance M_bind : MBind M := λ A B k m σ,
  match m σ with
  | Some (a, σ') => k a σ'
  | None => None
  end.

(** [raise IndexError] *)
Definition raise {A : Type} : M A := λ _, None.

(** [Image.new('RGBA', (w, h), c)]: a fresh raster in the store. *)
Definition Image_new (w h : Z) (c : Color) : M ref :=
  λ σ, Some (length σ, σ ++ [blank w h c]).

(** [ImageDraw.Draw(img)]: the handle draws on [img] itself. *)
Definition ImageDraw_Draw (img : ref) : M ref := mret img.

(** [draw.point((x, y), fill=color)], for a colour of byte channels (PIL
    raises [OverflowError] on a channel that does not fit a C integer; the
    script passes no such colour, and the embedding does not model it). *)
Definition point (draw : ref) (x y : Z) (color : Color) : M unit :=
  λ σ, match σ !! draw with
       | Some im => Some (tt, <[draw := putpixel im x y color]> σ)
       | None => None
       end.

(** [dst.paste(src, box)] *)
Definition paste (dst src : ref) (box : Z * Z) : M unit :=
  λ σ, match σ !! dst, σ !! src with
       | Some d, Some s => Some (tt, <[dst := paste_image d s box]> σ)
       | _, _ => None
       end.

(** [range(n)] *)
Definition range (n : Z) : list Z := Z.of_nat <$> seq 0 (Z.to_nat n).

(** [enumerate(l)] *)
Definition enumerate {A : Type} (l : list A) : list (Z * A) :=
  zip (range (Z.of_nat (length l))) l.

(** [for a in l: body(a)] *)
Fixpoint for_ {A : Type} (l : list A) (body : A → M unit) : M unit :=
  match l with
  | [] => mret tt
  | a :: l' => body a ;; for_ l' body
  end.

(** The value of [l[i]]: a negative index counts from the end, an index out
    of range has none. *)
Definition subscript {A : Type} (l : list A) (i : Z) : option A :=
  let n := Z.of_nat (length l) in
  let j := if i <? 0 then i + n else i in
  if (0 <=? j) && (j <? n) then l !! Z.to_nat j else None.

(** [l[i]], raising [IndexError] when the index is out of range. *)
Definition index {A : Type} (l : list A) (i : Z) : M A :=
  match subscript l i with
  | Some a => mret a
  | None => raise
  end.

(** [x in l] for integers. *)
Definition elem (x : Z) (l : list Z) : bool := existsb (Z.eqb x) l.

(** ** Constants of the script *)

Definition W : Z := 64.
Definition H : Z := 64.
Definition COLS : Z := 6.
Definition ROWS : Z := 6.
Definition SHEET_W : Z := W * COLS.
Definition SHEET_H : Z := H * ROWS.

Definition TRANSPARENT : Color := (0, 0, 0, 0).
Definition SKIN : Color := (255, 210, 170, 255).
Definition SKIN_SHADOW : Color := (230, 180, 140, 255).
Definition HAIR : Color := (90, 60, 40, 255).
Definition HOODIE : Color := (100, 130, 200, 255).
Definition HOODIE_DARK : Color := (75, 100, 170, 255).
Definition HOODIE_LIGHT : Color := (130, 160, 220, 255).
Definition DESK : Color := (160, 120, 80, 255).
Definition DESK_TOP : Color := (185, 145, 100, 255).
Definition DESK_DARK : Color := (130, 95, 65, 255).
Definition CHAIR : Color := (90, 90, 110, 255).
Definition CHAIR_BACK : Color := (105, 105, 125, 255).
Definition MONITOR_FRAME : Color := (70, 75, 95, 255).
Definition MONITOR_SCREEN : Color := (30, 45, 75, 255).
Definition MONITOR_GREEN : Color := (16, 220, 150, 255).
Definition MONITOR_BLUE : Color := (80, 150, 255, 255).
Definition MONITOR_RED : Color := (255, 90, 90, 255).
Definition SCREEN_LINE : Color := (100, 150, 200, 220).
Definition EYE_WHITE : Color := (255, 255, 255, 255).
Definition EYE_PUPIL : Color := (40, 30, 25, 255).
Definition MOUTH : Color := (200, 120, 100, 255).
Definition ZZZ : Color := (170, 190, 240, 230).
Definition SPARKLE : Color := (255, 230, 110, 255).
Definition SWEAT : Color := (160, 220, 255, 240).
Definition OUTLINE : Color := (50, 40, 35, 255).

(** ** Drawing primitives *)

(** [px(draw, x, y, color)]: draw a single pixel. *)
Definition px (draw : ref) (x y : Z) (color : Color) : M unit :=
  if (0 <=? x) && (x <? W) && (0 <=? y) && (y <? H) && (alpha color >? 0)
  then point draw x y color
  else mret tt.

(** [rect(draw, x, y, w, h, color)]: draw a filled rectangle. *)
Definition rect (draw : ref) (x y w h : Z) (color : Color) : M unit :=
  for_ (range h) (λ dy,
    for_ (range w) (λ dx,
      px draw (x + dx) (y + dy) color)).

(** ** Static scene parts *)

Definition draw_desk (draw : ref) : M unit :=
  rect draw 8 44 48 3 DESK_TOP ;;
  rect draw 8 47 48 8 DESK ;;
  rect draw 8 47 48 1 DESK_DARK ;;
  rect draw 10 55 3 9 DESK_DARK ;;
  rect draw 51 55 3 9 DESK_DARK.

Definition draw_chair (draw : ref) : M unit :=
  rect draw 24 28 16 2 CHAIR_BACK ;;
  rect draw 23 30 1 12 CHAIR_BACK ;;
  rect draw 40 30 1 12 CHAIR_BACK.

(** The defaults of the script are [left_glow=MONITOR_BLUE],
    [right_glow=MONITOR_GREEN], [flicker=0]; the callers below pass them. *)
Definition draw_monitors (draw : ref) (left_glow right_glow : Color) (flicker : Z)
    : M unit :=
  rect draw 11 30 14 12 MONITOR_FRAME ;;
  rect draw 12 31 12 10 MONITOR_SCREEN ;;
  rect draw 16 42 4 2 MONITOR_FRAME ;;
  rect draw 39 30 14 12 MONITOR_FRAME ;;
  rect draw 40 31 12 10 MONITOR_SCREEN ;;
  rect draw 44 42 4 2 MONITOR_FRAME ;;
  if negb (flicker =? 2) then
    for_ (range 10) (λ i,
      y_off ← index [3; 2; 4; 1; 3; 2; 5; 3; 1; 2] i;
      if (flicker =? 1) && (i `mod` 3 =? 0) then mret tt
      else
        px draw (13 + i) (35 + y_off) left_glow ;;
        px draw (13 + i) (36 + y_off) (with_alpha left_glow 80)) ;;
    for_ (range 5) (λ i,
      h_val ← index [4; 6; 3; 7; 5] i;
      let c := if h_val >? 4 then right_glow else with_alpha right_glow 150 in
      rect draw (41 + i * 2) (38 - h_val) 1 h_val c)
  else mret tt.

(** ** Character parts *)

(** Default arguments of the script: [y_off=0], [arms='desk']. *)
Definition draw_body_sitting (draw : ref) (y_off : Z) (arms : string) : M unit :=
  let y := y_off in
  rect draw 27 (36 + y) 10 8 HOODIE ;;
  rect draw 26 (37 + y) 1 6 HOODIE_DARK ;;
  rect draw 37 (37 + y) 1 6 HOODIE_DARK ;;
  rect draw 32 (37 + y) 1 7 HOODIE_DARK ;;
  if String.eqb arms "desk" then
    rect draw 24 (42 + y) 4 2 HOODIE ;;
    rect draw 36 (42 + y) 4 2 HOODIE ;;
    rect draw 23 (42 + y) 2 2 SKIN ;;
    rect draw 39 (42 + y) 2 2 SKIN
  else if String.eqb arms "up" then
    rect draw 23 (33 + y) 3 2 HOODIE ;;
    rect draw 38 (33 + y) 3 2 HOODIE ;;
    rect draw 22 (31 + y) 2 3 HOODIE ;;
    rect draw 40 (31 + y) 2 3 HOODIE ;;
    rect draw 22 (30 + y) 2 2 SKIN ;;
    rect draw 40 (30 + y) 2 2 SKIN
  else if String.eqb arms "typing_l" then
    rect draw 24 (40 + y) 4 2 HOODIE ;;
    rect draw 36 (42 + y) 4 2 HOODIE ;;
    rect draw 23 (40 + y) 2 2 SKIN ;;
    rect draw 39 (42 + y) 2 2 SKIN
  else if String.eqb arms "typing_r" then
    rect draw 24 (42 + y) 4 2 HOODIE ;;
    rect draw 36 (40 + y) 4 2 HOODIE ;;
    rect draw 23 (42 + y) 2 2 SKIN ;;
    rect draw 39 (40 + y) 2 2 SKIN
  else if String.eqb arms "slumped" then
    rect draw 22 (43 + y) 6 2 HOODIE ;;
    rect draw 36 (43 + y) 6 2 HOODIE ;;
    rect draw 21 (43 + y) 2 2 SKIN ;;
    rect draw 41 (43 + y) 2 2 SKIN
  else mret tt.

(** Default arguments of the script: [y_off=0], [eyes='open'],
    [blink=False], [look_dir=0], [mouth='smile']. *)
Definition draw_head (draw : ref) (y_off : Z) (eyes : string) (blink : bool)
    (look_dir : Z) (mouth : string) : M unit :=
  let y := y_off in
  rect draw 28 (24 + y) 8 3 HAIR ;;
  rect draw 28 (26 + y) 8 9 SKIN ;;
  rect draw 29 (25 + y) 6 1 SKIN ;;
  rect draw 28 (33 + y) 8 2 SKIN_SHADOW ;;
  rect draw 27 (24 + y) 10 3 HOODIE ;;
  rect draw 26 (26 + y) 2 4 HOODIE ;;
  rect draw 36 (26 + y) 2 4 HOODIE ;;
  rect draw 28 (24 + y) 8 1 HOODIE_LIGHT ;;
  rect draw 28 (26 + y) 2 2 HAIR ;;
  rect draw 34 (26 + y) 2 2 HAIR ;;
  (if String.eqb eyes "open" && negb blink then
     px draw (30 + look_dir) (29 + y) EYE_WHITE ;;
     px draw (30 + look_dir) (30 + y) EYE_PUPIL ;;
     px draw (33 + look_dir) (29 + y) EYE_WHITE ;;
     px draw (33 + look_dir) (30 + y) EYE_PUPIL
   else if String.eqb eyes "closed" || blink then
     px draw 30 (30 + y) OUTLINE ;;
     px draw 31 (30 + y) OUTLINE ;;
     px draw 33 (30 + y) OUTLINE ;;
     px draw 34 (30 + y) OUTLINE
   else if String.eqb eyes "wide" then
     px draw 30 (29 + y) EYE_WHITE ;;
     px draw 31 (29 + y) EYE_WHITE ;;
     px draw 30 (30 + y) EYE_PUPIL ;;
     px draw 31 (30 + y) EYE_WHITE ;;
     px draw 33 (29 + y) EYE_WHITE ;;
     px draw 34 (29 + y) EYE_WHITE ;;
     px draw 33 (30 + y) EYE_WHITE ;;
     px draw 34 (30 + y) EYE_PUPIL
   else mret tt) ;;
  if String.eqb mouth "smile" then
    px draw 31 (32 + y) MOUTH ;;
    px draw 32 (33 + y) MOUTH ;;
    px draw 33 (32 + y) MOUTH
  else if String.eqb mouth "open" then
    px draw 31 (32 + y) MOUTH ;;
    px draw 32 (32 + y) (100, 50, 40, 255) ;;
    px draw 33 (32 + y) MOUTH ;;
    px draw 32 (33 + y) MOUTH
  else if String.eqb mouth "flat" then
    px draw 31 (32 + y) MOUTH ;;
    px draw 32 (32 + y) MOUTH ;;
    px draw 33 (32 + y) MOUTH
  else if String.eqb mouth "none" then
    mret tt
  else mret tt.

(** ** Particle overlays *)

Definition draw_zzz (draw : ref) (frame : Z) : M unit :=
  let offsets := [(36, 22); (40, 18); (44, 14)] in
  let sizes := [1; 1; 2] in
  for_ (enumerate offsets) (λ '(i, (bx, by_)),
    let f := (frame + i) `mod` 6 in
    if f <? 3 + i then
      s ← index sizes (Z.min i (Z.of_nat (length sizes) - 1));
      let alpha := Z.max 0 (255 - f * 40) in
      let color := with_alpha ZZZ alpha in
      if s =? 1 then
        px draw bx (by_ - f) color
      else
        rect draw bx (by_ - f) 3 1 color ;;
        px draw (bx + 2) (by_ + 1 - f) color ;;
        rect draw bx (by_ + 2 - f) 3 1 color
    else mret tt).

Definition draw_sparkle (draw : ref) (frame : Z) : M unit :=
  let positions := [(18, 28); (44, 26); (22, 20); (40, 18); (32, 16)] in
  for_ (enumerate positions) (λ '(i, (sx, sy)),
    let f := (frame + i * 2) `mod` 6 in
    if f <? 3 then
      alpha ← index [255; 180; 100] f;
      let c := with_alpha SPARKLE alpha in
      px draw sx sy c ;;
      px draw (sx - 1) sy c ;;
      px draw (sx + 1) sy c ;;
      px draw sx (sy - 1) c ;;
      px draw sx (sy + 1) c
    else mret tt).

Definition draw_sweat (draw : ref) (frame : Z) : M unit :=
  let drops := [(26, 28); (38, 27)] in
  for_ (enumerate drops) (λ '(i, (sx, sy)),
    let f := (frame + i * 3) `mod` 6 in
    let dy := f `mod` 3 in
    if f <? 4 then
      px draw sx (sy + dy) SWEAT ;;
      if dy >? 0 then px draw sx (sy + dy - 1) (with_alpha SWEAT 100)
      else mret tt
    else mret tt).

(** ** Frame composition *)

(** [draw_frame(row, col)]: generate a single 64x64 frame. *)
Definition draw_frame (row col : Z) : M ref :=
  img ← Image_new W H TRANSPARENT;
  draw ← ImageDraw_Draw img;
  let frame := col in
  (if row =? 0 then
     breath ← index [0; 0; -1; -1; 0; 0] frame;
     let blink := frame =? 3 in
     draw_desk draw ;;
     draw_monitors draw MONITOR_BLUE MONITOR_GREEN 0 ;;
     draw_chair draw ;;
     draw_body_sitting draw breath "desk" ;;
     let arm_state := if frame =? 2 then "typing_r"%string else "desk"%string in
     (if negb (String.eqb arm_state "desk")
      then draw_body_sitting draw breath arm_state
      else mret tt) ;;
     look_dir ← index [0; 0; 1; 0; -1; 0] frame;
     draw_head draw breath "open" blink look_dir "smile"
   else if row =? 1 then
     draw_desk draw ;;
     let flicker := if elem frame [2; 5] then 1 else 0 in
     draw_monitors draw MONITOR_BLUE MONITOR_GREEN flicker ;;
     draw_chair draw ;;
     arms ← index ["typing_l"; "typing_r"; "typing_l"; "typing_r"; "typing_l";
                   "typing_r"]%string frame;
     draw_body_sitting draw 0 arms ;;
     let blink := frame =? 4 in
     look_dir ← index [0; 1; 0; -1; 0; 1] frame;
     draw_head draw 0 "open" blink look_dir "smile"
   else if row =? 2 then
     draw_desk draw ;;
     draw_monitors draw MONITOR_BLUE MONITOR_GREEN 2 ;;
     draw_chair draw ;;
     draw_body_sitting draw 1 "slumped" ;;
     let head_y := 5 in
     rect draw 28 (30 + head_y) 8 6 HOODIE ;;
     rect draw 29 (31 + head_y) 6 3 SKIN_SHADOW ;;
     rect draw 27 (29 + head_y) 10 2 HOODIE_LIGHT ;;
     draw_zzz draw frame
   else if row =? 3 then
     breath ← index [0; -1; -2; -1; 0; -1] frame;
     draw_desk draw ;;
     draw_monitors draw MONITOR_GREEN MONITOR_GREEN 0 ;;
     draw_chair draw ;;
     let arms := if elem frame [1; 2; 3; 4] then "up"%string else "desk"%string in
     draw_body_sitting draw breath arms ;;
     let mouth := if elem frame [1; 2; 3] then "open"%string else "smile"%string in
     look_dir ← index [0; 0; 1; -1; 0; 0] frame;
     draw_head draw breath "open" false look_dir mouth ;;
     draw_sparkle draw frame
   else if row =? 4 then
     draw_desk draw ;;
     let flicker := if elem frame [1; 3; 5] then 1 else 0 in
     draw_monitors draw MONITOR_RED MONITOR_RED flicker ;;
     draw_chair draw ;;
     arms ← index ["typing_l"; "desk"; "typing_r"; "desk"; "typing_l";
                   "typing_r"]%string frame;
     draw_body_sitting draw 0 arms ;;
     look_dir ← index [0; 1; 1; -1; -1; 0] frame;
     draw_head draw 0 "wide" false look_dir "flat" ;;
     draw_sweat draw frame
   else if row =? 5 then
     draw_desk draw ;;
     draw_chair draw ;;
     if frame <? 2 then
       draw_monitors draw MONITOR_BLUE MONITOR_GREEN 2 ;;
       let breath := if frame =? 1 then -1 else 0 in
       draw_body_sitting draw breath "desk" ;;
       draw_head draw breath
         (if frame =? 0 then "closed"%string else "open"%string) false 0
         (if frame =? 1 then "open"%string else "flat"%string)
     else if frame <? 4 then
       rect draw 11 30 14 12 MONITOR_FRAME ;;
       rect draw 12 31 12 10 MONITOR_SCREEN ;;
       rect draw 16 42 4 2 MONITOR_FRAME ;;
       (if frame >=? 2 then
          for_ (range 12) (λ i,
            let alpha := 60 + (frame - 2) * 80 in
            px draw (13 + i `mod` 6) (33 + i `div` 6)
               (with_alpha MONITOR_BLUE (Z.min alpha 200)))
        else mret tt) ;;
       rect draw 39 30 14 12 MONITOR_FRAME ;;
       rect draw 40 31 12 10 MONITOR_SCREEN ;;
       rect draw 44 42 4 2 MONITOR_FRAME ;;
       (if frame =? 3 then
          for_ (range 6) (λ i, px draw (42 + i) 35 (with_alpha MONITOR_GREEN 80))
        else mret tt) ;;
       draw_body_sitting draw 0 "desk" ;;
       draw_head draw 0 "open" false (if frame =? 2 then -1 else 1) "smile"
     else
       draw_monitors draw MONITOR_BLUE MONITOR_GREEN 0 ;;
       draw_body_sitting draw 0 (if frame =? 4 then "desk"%string else "typing_l"%string) ;;
       draw_head draw 0 "open" false 0 "smile"
   else mret tt) ;;
  mret img.

(** ** Sheet assembly *)

(** [generate_sprite_sheet()]: generate the full 384x384 sprite sheet. *)
Definition generate_sprite_sheet : M ref :=
  sheet ← Image_new SHEET_W SHEET_H TRANSPARENT;
  for_ (range ROWS) (λ row,
    for_ (range COLS) (λ col,
      frame ← draw_frame row col;
      paste sheet frame (col * W, row * H))) ;;
  mret sheet.

(** * Definitions for the specification *)

(** ** Pixel writes

    Every drawing routine ends in calls of [px]; what a routine does to the
    raster behind its handle is therefore a list of attempted pixel writes,
    performed in order, each one subject to the guard of [px]. *)

(** An attempted write: a coordinate and a colour. *)
Definition Write : Type := Z * Z * Color.

(** The coordinate lies in the 64x64 frame. *)
Definition in_frame (x y : Z) : bool :=
  (0 <=? x) && (x <? W) && (0 <=? y) && (y <? H).

(** The effect of one [px] call on the raster it draws on. *)
Definition px_image (im : Image) (w : Write) : Image :=
  let '(x, y, c) := w in
  if in_frame x y && (alpha c >? 0) then putpixel im x y c else im.

Definition apply_writes (ws : list Write) (im : Image) : Image :=
  foldl px_image im ws.

(** [Draws m ows]: on every store, run with a valid handle [d], the routine
    [m] either raises ([ows = None]) or performs the writes [ws] on the
    raster of [d] and touches nothing else ([ows = Some ws]); the writes do
    not depend on the store or on the handle. *)
Definition Draws (m : ref → M unit) (ows : option (list Write)) : Prop :=
  ∀ (d : ref) (σ : Heap) (im : Image), σ !! d = Some im →
    m d σ = (λ ws, (tt, <[d := apply_writes ws im]> σ)) <$> ows.

(** Writes of [m ;; k]. *)
Definition seq_writes (o1 o2 : option (list Write)) : option (list Write) :=
  ws1 ← o1; ws2 ← o2; Some (ws1 ++ ws2).

(** Writes of [for a in l: body(a)]. *)
Definition for_writes {A : Type} (l : list A) (f : A → option (list Write))
    : option (list Write) :=
  foldr (λ a acc, seq_writes (f a) acc) (Some []) l.

(** Writes of [rect(draw, x, y, w, h, color)], row by row. *)
Definition rect_writes (x y w h : Z) (c : Color) : list Write :=
  dy ← range h; dx ← range w; [(x + dx, y + dy, c)].

(** The raster has the shape its size announces. *)
Definition wf_image (im : Image) : Prop :=
  length (im_rows im) = Z.to_nat (im_height im) ∧
  Forall (λ r, length r = Z.to_nat (im_width im)) (im_rows im).

(** The raster [draw_frame(row, col)] returns when run on the empty store;
    [None] when it raises. *)
Definition render (row col : Z) : option Image :=
  match draw_frame row col [] with
  | Some (r, σ) => σ !! r
  | None => None
  end.

(** ** Decidable checks *)

(** Decidable checks over the frames of the sheet and the pixels of a
    frame. *)
Definition all_below (n : Z) (P : Z → bool) : bool := forallb P (range n).

Definition all_cells (P : Z → Z → bool) : bool :=
  all_below ROWS (λ r, all_below COLS (λ c, P r c)).

Definition all_pixels (P : Z → Z → bool) : bool :=
  all_below H (λ y, all_below W (λ x, P x y)).

(** ** Writes that do not show *)

(** A write that is dropped by the guard of [px], or that goes elsewhere,
    does not show at [(X, Y)]. *)
Definition misses (X Y : Z) (w : Write) : Prop :=
  let '(x, y, c) := w in
  ¬ (X = x ∧ Y = y ∧ in_frame x y = true ∧ alpha c > 0).

(** ** The sheet as a sequence of pastes *)

(** The frame of a cell of the grid (blank where [draw_frame] raises). *)
Definition frame_of (row col : Z) : Image :=
  default (blank W H TRANSPARENT) (render row col).

(** The sheet after the frame of one cell has been pasted. *)
Definition paste_cell (sheet : Image) (cell : Z * Z) : Image :=
  let '(row, col) := cell in
  paste_image sheet (frame_of row col) (col * W, row * H).

(** The cells in the order the two loops visit them. *)
Definition grid (rows cols : list Z) : list (Z * Z) :=
  row ← rows; col ← cols; [(row, col)].

(** ** The monitors, as writes *)

(** The two monitor bodies: frame, screen and stand, left then right. *)
Definition monitor_bodies : list Write :=
  rect_writes 11 30 14 12 MONITOR_FRAME ++
  rect_writes 12 31 12 10 MONITOR_SCREEN ++
  rect_writes 16 42 4 2 MONITOR_FRAME ++
  rect_writes 39 30 14 12 MONITOR_FRAME ++
  rect_writes 40 31 12 10 MONITOR_SCREEN ++
  rect_writes 44 42 4 2 MONITOR_FRAME.

(** The left-screen line chart without the points whose index is in
    [skip]: per point a glow pixel and a faded pixel under it. *)
Definition line_chart (left_glow : Color) (skip : list Z) : list Write :=
  i ← range 10;
  if bool_decide (i ∈ skip) then []
  else
    let y_off := default 0 ([3; 2; 4; 1; 3; 2; 5; 3; 1; 2] !! Z.to_nat i) in
    [(13 + i, 35 + y_off, left_glow);
     (13 + i, 36 + y_off, with_alpha left_glow 80)].

(** The right-screen candle bars. *)
Definition candles (right_glow : Color) : list Write :=
  i ← range 5;
  let h_val := default 0 ([4; 6; 3; 7; 5] !! Z.to_nat i) in
  rect_writes (41 + i * 2) (38 - h_val) 1 h_val
    (if h_val >? 4 then right_glow else with_alpha right_glow 150).

(** The coordinates of the chart points 0, 3, 6 and 9. *)
Definition skipped_points : list (Z * Z) :=
  [(13, 38); (13, 39); (16, 36); (16, 37); (19, 40); (19, 41); (22, 37); (22, 38)].

(** ** The sleep marks, as writes *)

(** The glyph of slot [i] with its top-left corner at [(x, y)]: one pixel
    for the first two slots, a three-pixel-wide bent "Z" for the last. *)
Definition zzz_glyph (i x y : Z) (c : Color) : list Write :=
  if i <? 2 then [(x, y, c)]
  else rect_writes x y 3 1 c ++ [(x + 2, y + 1, c)] ++ rect_writes x (y + 2) 3 1 c.

(** Slot [i], anchored at [(bx, by_)]: with phase [f = (frame + i) mod 6] the
    glyph is drawn [f] pixels higher with alpha [max(0, 255 - 40 f)], when
    [visible f i] holds. *)
Definition zzz_slot (visible : Z → Z → bool) (frame i bx by_ : Z) : list Write :=
  let f := (frame + i) `mod` 6 in
  if visible f i
  then zzz_glyph i bx (by_ - f) (with_alpha ZZZ (Z.max 0 (255 - 40 * f)))
  else [].

Definition zzz_writes (visible : Z → Z → bool) (frame : Z) : list Write :=
  zzz_slot visible frame 0 36 22 ++
  zzz_slot visible frame 1 40 18 ++
  zzz_slot visible frame 2 44 14.

(** Visibility as the code has it, and as the claim words it. *)
Definition zzz_below (f i : Z) : bool := f <? 3 + i.
Definition zzz_up_to (f i : Z) : bool := f <=? 3 + i.

(** ** Scenes *)

(** The raster a drawing routine leaves when run on a fresh blank frame. *)
Definition draw_on_blank (m : ref → M unit) : option Image :=
  match (img ← Image_new W H TRANSPARENT; m img ;; mret img) [] with
  | Some (r, σ) => σ !! r
  | None => None
  end.

(** The idle row as the code composes it, with the values it reads from its
    per-column tables as parameters: the body is drawn with the arms on the
    desk and, for another pose, drawn once more over that. *)
Definition idle_scene (d : ref) (breath : Z) (blink : bool) (arm_state : string)
    (look_dir : Z) : M unit :=
  draw_desk d ;;
  draw_monitors d MONITOR_BLUE MONITOR_GREEN 0 ;;
  draw_chair d ;;
  draw_body_sitting d breath "desk" ;;
  (if negb (String.eqb arm_state "desk")
   then draw_body_sitting d breath arm_state
   else mret tt) ;;
  draw_head d breath "open" blink look_dir "smile".

(** The idle row with the final arm pose computed first and the body drawn
    exactly once. *)
Definition idle_scene_once (d : ref) (breath : Z) (blink : bool)
    (arm_state : string) (look_dir : Z) : M unit :=
  draw_desk d ;;
  draw_monitors d MONITOR_BLUE MONITOR_GREEN 0 ;;
  draw_chair d ;;
  draw_body_sitting d breath arm_state ;;
  draw_head d breath "open" blink look_dir "smile".

#[global] Instance Image_eq_dec : EqDecision Image.
Proof. solve_decision. Defined.

(** Decidable comparisons of frames. *)
Definition pixel_is (im : Image) (x y : Z) (c : Color) : bool :=
  bool_decide (getpixel im x y = Some c).

Definition is_frame (im : Image) : bool :=
  (im_width im =? 64) && (im_height im =? 64).

(** The two frames agree at every pixel that is not listed. *)
Definition agree_off (skip : list (Z * Z)) (a b : Image) : bool :=
  is_frame a && is_frame b &&
  all_pixels (λ x y,
    bool_decide ((x, y) ∈ skip) || bool_decide (getpixel a x y = getpixel b x y)).

(** The two frames differ at every listed pixel, where the first shows what
    the third shows. *)
Definition shows_through (l : list (Z * Z)) (a b c : Image) : bool :=
  forallb (λ '(x, y),
    bool_decide (getpixel a x y = getpixel c x y) &&
    negb (bool_decide (getpixel a x y = getpixel b x y))) l.

Definition check1 (o : option Image) (P : Image → bool) : bool :=
  match o with Some im => P im | None => false end.

Definition check2 (oa ob : option Image) (P : Image → Image → bool) : bool :=
  match oa, ob with Some a, Some b => P a b | _, _ => false end.

(** The pixels of the forearm and hand of the desk pose that the raised
    right arm of [typing_r] does not cover (breathing offset -1). *)
Definition desk_arm_leftover : list (Z * Z) :=
  [(38, 41); (39, 41); (40, 41); (37, 42); (38, 42); (39, 42); (40, 42)].

(** The worried row as the code composes it, with what it reads from its
    per-column tables as parameters; the eyes and the mouth are not among
    them. *)
Definition worried_scene (d : ref) (flicker : Z) (arms : string)
    (look_dir frame : Z) : M unit :=
  draw_desk d ;;
  draw_monitors d MONITOR_RED MONITOR_RED flicker ;;
  draw_chair d ;;
  draw_body_sitting d 0 arms ;;
  draw_head d 0 "wide" false look_dir "flat" ;;
  draw_sweat d frame.

(** The face: the block of the head between the hood's sides, below its
    top. *)
Definition in_face (x y : Z) : bool :=
  (28 <=? x) && (x <? 36) && (26 <=? y) && (y <? 35).

(** The first frame has the face of the second. *)
Definition same_face (a b : Image) : bool :=
  all_pixels (λ x y,
    negb (in_face x y) || bool_decide (getpixel a x y = getpixel b x y)).

(** The pixels of wide eyes and of a flat mouth at offset 0. *)
Definition wide_eyes_flat_mouth (im : Image) : bool :=
  pixel_is im 30 29 EYE_WHITE && pixel_is im 31 29 EYE_WHITE &&
  pixel_is im 30 30 EYE_PUPIL && pixel_is im 31 30 EYE_WHITE &&
  pixel_is im 33 29 EYE_WHITE && pixel_is im 34 29 EYE_WHITE &&
  pixel_is im 33 30 EYE_WHITE && pixel_is im 34 30 EYE_PUPIL &&
  pixel_is im 31 32 MOUTH && pixel_is im 32 32 MOUTH &&
  pixel_is im 33 32 MOUTH && pixel_is im 32 33 SKIN_SHADOW.

(** The schedule of the worried row, read off its literal tables. *)
Definition worried_flicker (col : Z) : Z := if elem col [1; 3; 5] then 1 else 0.

(** The screens of the two monitors. *)
Definition in_screen (x y : Z) : bool :=
  ((12 <=? x) && (x <? 24) || (40 <=? x) && (x <? 52)) &&
  (31 <=? y) && (y <? 41).

(** The columns of the screens that the side strips of the chair cover. *)
Definition chair_column (x : Z) : bool := (x =? 23) || (x =? 40).

Definition same_rgb (c c' : Color) : bool :=
  let '(r, g, b, _) := c in
  let '(r', g', b', _) := c' in
  (r =? r') && (g =? g') && (b =? b').

(** Every screen pixel has the screen colour, or the colour of the chair on
    the columns the chair covers, and no pixel of the frame has the hue of a
    glow colour. *)
Definition screens_off (im : Image) : bool :=
  all_pixels (λ x y,
    (negb (in_screen x y) ||
     pixel_is im x y (if chair_column x then CHAIR_BACK else MONITOR_SCREEN)) &&
    match getpixel im x y with
    | Some c => negb (same_rgb c MONITOR_BLUE) && negb (same_rgb c MONITOR_GREEN)
    | None => false
    end).

(** ** Predicates for the further properties *)

(** The coordinate lies in the rectangle [[x, x+w) x [y, y+h)]. *)
Definition in_rect (x y w h X Y : Z) : Prop :=
  x ≤ X < x + w ∧ y ≤ Y < y + h.

(** The arm poses [draw_body_sitting] knows. *)
Definition known_arms : list string :=
  ["desk"; "up"; "typing_l"; "typing_r"; "slumped"]%string.

(** The mouths [draw_head] draws. *)
Definition drawn_mouths : list string := ["smile"; "open"; "flat"]%string.

(** The rows that subscript their tables with the column, and the columns
    those tables accept. *)
Definition table_rows : list Z := [0; 1; 3; 4].
Definition table_cols : list Z := (λ i, i - 6) <$> range 12.

(** The colour is the transparent background or has a positive alpha. *)
Definition clear_or_visible (c : Color) : Prop :=
  c = TRANSPARENT ∨ alpha c > 0.

(** Every write of the list goes to a coordinate that satisfies [B]. *)
Definition writes_within (B : Z → Z → Prop) (ows : option (list Write)) : Prop :=
  ∀ ws, ows = Some ws → Forall (λ w : Write, B w.1.1 w.1.2) ws.

(** The boxes of the parts. *)
Definition desk_box (X Y : Z) : Prop := 8 ≤ X < 56 ∧ 44 ≤ Y < 64.
Definition chair_box (X Y : Z) : Prop := 23 ≤ X < 41 ∧ 28 ≤ Y < 42.
Definition monitors_box (X Y : Z) : Prop := 11 ≤ X < 53 ∧ 30 ≤ Y < 44.
Definition body_box (y_off X Y : Z) : Prop :=
  21 ≤ X < 43 ∧ 30 + y_off ≤ Y < 45 + y_off.
Definition head_box (y_off X Y : Z) : Prop :=
  26 ≤ X < 38 ∧ 24 + y_off ≤ Y < 35 + y_off.

#[global] Instance monitors_box_dec X Y : Decision (monitors_box X Y).
Proof. unfold monitors_box. apply _. Defined.

(** The frames of the cells, in the order of the cells. *)
Definition frames_of (cells : list (Z * Z)) : list Image :=
  (λ cell, frame_of cell.1 cell.2) <$> cells.

(** * Reasoning about the program *)

(** ** Basic facts about rasters *)

Lemma in_image_spec im x y :
  in_image im x y = true ↔ 0 ≤ x < im_width im ∧ 0 ≤ y < im_height im.
Proof. unfold in_image. rewrite !andb_true_iff. lia. Qed.

Lemma in_frame_spec x y :
  in_frame x y = true ↔ 0 ≤ x < 64 ∧ 0 ≤ y < 64.
Proof. unfold in_frame, W, H. rewrite !andb_true_iff. lia. Qed.

Lemma putpixel_width im x y c : im_width (putpixel im x y c) = im_width im.
Proof. unfold putpixel. by destruct (in_image im x y). Qed.

Lemma putpixel_height im x y c : im_height (putpixel im x y c) = im_height im.
Proof. unfold putpixel. by destruct (in_image im x y). Qed.

Lemma in_image_putpixel im x y c X Y :
  in_image (putpixel im x y c) X Y = in_image im X Y.
Proof. unfold in_image. by rewrite putpixel_width, putpixel_height. Qed.

Lemma putpixel_wf im x y c : wf_image im → wf_image (putpixel im x y c).
Proof.
  intros [Hh Hw]. unfold putpixel.
  destruct (in_image im x y); [|done].
  split; simpl.
  - by rewrite length_alter.
  - apply Forall_lookup. intros i r Hr.
    destruct (decide (i = Z.to_nat y)) as [->|Hne].
    + rewrite list_lookup_alter_eq in Hr.
      destruct (im_rows im !! Z.to_nat y) as [r0|] eqn:E; [|done].
      simpl in Hr. injection Hr as <-. rewrite length_insert.
      by eapply (Forall_lookup_1 _ _ _ _ Hw).
    + rewrite list_lookup_alter_ne in Hr by done.
      by eapply (Forall_lookup_1 _ _ _ _ Hw).
Qed.

Lemma blank_wf w h c : wf_image (blank w h c).
Proof.
  split; simpl.
  - by rewrite length_replicate.
  - apply Forall_replicate. by rewrite length_replicate.
Qed.

Lemma getpixel_is_Some im x y :
  wf_image im → in_image im x y = true → is_Some (getpixel im x y).
Proof.
  intros [Hh Hw] Hin. unfold getpixel. rewrite Hin.
  apply in_image_spec in Hin.
  destruct (lookup_lt_is_Some_2 (im_rows im) (Z.to_nat y)) as [r Hr]; [lia|].
  rewrite Hr. simpl.
  apply lookup_lt_is_Some_2.
  rewrite (Forall_lookup_1 _ _ _ _ Hw Hr). lia.
Qed.

(** Reading a pixel after a write: the written colour at the written place
    (when it exists), the old colour elsewhere. *)
Lemma getpixel_putpixel im x y c X Y :
  getpixel (putpixel im x y c) X Y =
  if decide (X = x ∧ Y = y) then (λ _, c) <$> getpixel im X Y
  else getpixel im X Y.
Proof.
  unfold getpixel at 1. rewrite in_image_putpixel.
  unfold putpixel, getpixel.
  destruct (in_image im X Y) eqn:HXY.
  - destruct (in_image im x y) eqn:Hxy; simpl.
    + apply in_image_spec in HXY. apply in_image_spec in Hxy.
      destruct (decide (Y = y)) as [->|Hy].
      * rewrite list_lookup_alter_eq.
        destruct (im_rows im !! Z.to_nat y) as [r|]; simpl;
          [|by case_decide].
        destruct (decide (X = x)) as [->|Hx].
        -- rewrite decide_True by done.
           destruct (r !! Z.to_nat x) eqn:E; simpl.
           ++ apply list_lookup_insert_eq. by eapply lookup_lt_Some.
           ++ by apply list_lookup_insert_None.
        -- rewrite decide_False by lia.
           apply list_lookup_insert_ne. lia.
      * rewrite list_lookup_alter_ne by lia.
        rewrite decide_False by lia. done.
    + case_decide as Hd; [|done].
      destruct Hd as [-> ->]. congruence.
  - by case_decide.
Qed.

Lemma px_image_width im w : im_width (px_image im w) = im_width im.
Proof.
  destruct w as [[x y] c]. simpl.
  destruct (in_frame x y && (alpha c >? 0)); [apply putpixel_width|done].
Qed.

Lemma px_image_height im w : im_height (px_image im w) = im_height im.
Proof.
  destruct w as [[x y] c]. simpl.
  destruct (in_frame x y && (alpha c >? 0)); [apply putpixel_height|done].
Qed.

Lemma px_image_wf im w : wf_image im → wf_image (px_image im w).
Proof.
  destruct w as [[x y] c]. simpl. intros Hwf.
  destruct (in_frame x y && (alpha c >? 0)); [by apply putpixel_wf|done].
Qed.

Lemma apply_writes_width ws im : im_width (apply_writes ws im) = im_width im.
Proof.
  revert im. induction ws as [|w ws IH]; intros im; [done|].
  unfold apply_writes in *. simpl. by rewrite IH, px_image_width.
Qed.

Lemma apply_writes_height ws im : im_height (apply_writes ws im) = im_height im.
Proof.
  revert im. induction ws as [|w ws IH]; intros im; [done|].
  unfold apply_writes in *. simpl. by rewrite IH, px_image_height.
Qed.

Lemma apply_writes_wf ws im : wf_image im → wf_image (apply_writes ws im).
Proof.
  revert im. induction ws as [|w ws IH]; intros im Hwf; [done|].
  unfold apply_writes in *. simpl. apply IH. by apply px_image_wf.
Qed.

Lemma apply_writes_app ws1 ws2 im :
  apply_writes (ws1 ++ ws2) im = apply_writes ws2 (apply_writes ws1 im).
Proof. apply foldl_app. Qed.

(** ** The rules of [Draws] *)

Lemma Draws_ret : Draws (λ _, mret tt) (Some []).
Proof.
  intros d σ im Hd. simpl. unfold mret, M_ret.
  by rewrite list_insert_id.
Qed.

Lemma Draws_raise : Draws (λ _, raise) None.
Proof. by intros d σ im Hd. Qed.

Lemma Draws_px x y c : Draws (λ d, px d x y c) (Some [(x, y, c)]).
Proof.
  intros d σ im Hd. unfold px. simpl. fold (in_frame x y).
  destruct (in_frame x y && (alpha c >? 0)).
  - unfold point. by rewrite Hd.
  - unfold mret, M_ret. by rewrite list_insert_id.
Qed.

Lemma Draws_seq m k o1 o2 :
  Draws m o1 → Draws k o2 → Draws (λ d, m d ;; k d) (seq_writes o1 o2).
Proof.
  intros Hm Hk d σ im Hd. unfold mbind, M_bind.
  rewrite (Hm d σ im Hd).
  destruct o1 as [ws1|]; [|done]. simpl.
  assert (d < length σ)%nat as Hlt by by eapply lookup_lt_Some.
  rewrite (Hk d _ (apply_writes ws1 im)) by by apply list_lookup_insert_eq.
  destruct o2 as [ws2|]; [|done]. simpl.
  by rewrite list_insert_insert_eq, apply_writes_app.
Qed.

Lemma Draws_if (b : bool) m1 m2 o1 o2 :
  Draws m1 o1 → Draws m2 o2 →
  Draws (λ d, if b then m1 d else m2 d) (if b then o1 else o2).
Proof. by destruct b. Qed.

Lemma Draws_index {A} (l : list A) i (k : A → ref → M unit) ws :
  (∀ a, Draws (k a) (ws a)) →
  Draws (λ d, a ← index l i; k a d) (subscript l i ≫= ws).
Proof.
  intros Hk d σ im Hd. unfold mbind at 1, M_bind, index.
  destruct (subscript l i) as [a|]; [|done]. simpl.
  by apply Hk.
Qed.

Lemma Draws_for {A} (l : list A) (body : ref → A → M unit) ws :
  (∀ a, Draws (λ d, body d a) (ws a)) →
  Draws (λ d, for_ l (body d)) (for_writes l ws).
Proof.
  intros Hb. induction l as [|a l IH]; simpl.
  - apply Draws_ret.
  - by apply (Draws_seq (λ d, body d a) (λ d, for_ l (body d))).
Qed.

Lemma Draws_eq m o o' : Draws m o → o = o' → Draws m o'.
Proof. by intros ? <-. Qed.

Lemma for_writes_Some {A} (l : list A) (f : A → list Write) :
  for_writes l (λ a, Some (f a)) = Some (l ≫= f).
Proof.
  induction l as [|a l IH]; [done|].
  simpl. rewrite IH. done.
Qed.

Lemma Draws_rect x y w h c :
  Draws (λ d, rect d x y w h c) (Some (rect_writes x y w h c)).
Proof.
  unfold rect, rect_writes.
  eapply Draws_eq.
  - apply (Draws_for (range h)
      (λ d dy, for_ (range w) (λ dx, px d (x + dx) (y + dy) c))
      (λ dy, Some (dx ← range w; [(x + dx, y + dy, c)]))).
    intros dy. eapply Draws_eq.
    + apply (Draws_for (range w) (λ d dx, px d (x + dx) (y + dy) c)
        (λ dx, Some [(x + dx, y + dy, c)])).
      intros dx. apply Draws_px.
    + apply for_writes_Some.
  - apply for_writes_Some.
Qed.

Lemma Draws_prod {A B} (p : A * B) (f : A → B → ref → M unit) ws :
  (∀ a b, Draws (f a b) (ws a b)) →
  Draws (λ d, let '(a, b) := p in f a b d) (let '(a, b) := p in ws a b).
Proof. destruct p. auto. Qed.

(** Derives the writes of a routine built from [px], [rect], sequencing,
    conditionals, subscripts and loops. *)
Ltac draws :=
  unfold draw_desk, draw_chair, draw_monitors, draw_body_sitting, draw_head,
    draw_zzz, draw_sparkle, draw_sweat;
  cbv zeta;
  repeat first
    [ apply Draws_ret
    | apply Draws_px
    | apply Draws_rect
    | eapply Draws_index; intros ?
    | eapply Draws_seq
    | eapply Draws_if
    | eapply Draws_for; intros ?
    | eapply Draws_prod; intros ? ? ].

(** Allocating a raster and drawing on it extends the store by that one
    raster. *)
Lemma alloc_draw (w h : Z) (c : Color) (k : ref → M unit) ows (σ : Heap) :
  Draws k ows →
  (img ← Image_new w h c; draw ← ImageDraw_Draw img; k draw ;; mret img) σ
  = (λ ws, (length σ, σ ++ [apply_writes ws (blank w h c)])) <$> ows.
Proof.
  intros Hk. unfold mbind, M_bind, Image_new, ImageDraw_Draw, mret, M_ret.
  rewrite (Hk (length σ) (σ ++ [blank w h c]) (blank w h c)).
  - destruct ows as [ws|]; [|done]. simpl.
    rewrite insert_app_r_alt by lia. by rewrite Nat.sub_diag.
  - rewrite lookup_app_r by lia. by rewrite Nat.sub_diag.
Qed.

Lemma draw_frame_draws (row col : Z) :
  ∃ ows, ∀ σ : Heap,
    draw_frame row col σ
    = (λ ws, (length σ, σ ++ [apply_writes ws (blank W H TRANSPARENT)])) <$> ows.
Proof.
  eexists. intros σ. unfold draw_frame. apply alloc_draw. draws.
Qed.

(** On any store, [draw_frame] returns a fresh raster, equal to the one it
    produces on the empty store, appended to the store it was given. *)
Lemma draw_frame_run (row col : Z) (σ : Heap) :
  draw_frame row col σ = (λ im, (length σ, σ ++ [im])) <$> render row col.
Proof.
  destruct (draw_frame_draws row col) as [ows Hrun].
  unfold render. rewrite (Hrun []), (Hrun σ).
  by destruct ows.
Qed.

Lemma render_shape (row col : Z) (im : Image) :
  render row col = Some im →
  im_width im = 64 ∧ im_height im = 64 ∧ wf_image im.
Proof.
  destruct (draw_frame_draws row col) as [ows Hrun].
  unfold render. rewrite (Hrun []).
  destruct ows as [ws|]; [|done]. simpl. intros [= <-].
  rewrite apply_writes_width, apply_writes_height.
  split_and!; [done..|]. apply apply_writes_wf, blank_wf.
Qed.

(** Case analysis on an index known to lie in [0, 5]. *)
Ltac cases6 i :=
  let H := fresh in
  assert (i = 0 ∨ i = 1 ∨ i = 2 ∨ i = 3 ∨ i = 4 ∨ i = 5) as H by lia;
  destruct H as [->|[->|[->|[->|[->| ->]]]]].

Lemma range_elem (n i : Z) : 0 ≤ i < n → i ∈ range n.
Proof.
  intros Hi. unfold range. apply list_elem_of_fmap.
  exists (Z.to_nat i). split; [lia|]. apply elem_of_seq. lia.
Qed.

Lemma elem_range (n i : Z) : i ∈ range n → 0 ≤ i < n.
Proof.
  unfold range. intros (k & -> & Hk)%list_elem_of_fmap.
  apply elem_of_seq in Hk. lia.
Qed.

Lemma all_below_spec (n : Z) (P : Z → bool) :
  all_below n P = true → ∀ i, 0 ≤ i < n → P i = true.
Proof.
  unfold all_below. rewrite forallb_forall. intros HP i Hi.
  apply HP, list_elem_of_In, range_elem, Hi.
Qed.

Lemma all_cells_spec (P : Z → Z → bool) :
  all_cells P = true → ∀ r c, 0 ≤ r ≤ 5 → 0 ≤ c ≤ 5 → P r c = true.
Proof.
  intros HP r c Hr Hc.
  apply (all_below_spec COLS (λ c, P r c)); [|unfold COLS; lia].
  apply (all_below_spec ROWS (λ r, all_below COLS (λ c, P r c)));
    [done|unfold ROWS; lia].
Qed.

Lemma all_pixels_spec (P : Z → Z → bool) :
  all_pixels P = true → ∀ x y, 0 ≤ x < 64 → 0 ≤ y < 64 → P x y = true.
Proof.
  intros HP x y Hx Hy.
  apply (all_below_spec W (λ x, P x y)); [|unfold W; lia].
  apply (all_below_spec H (λ y, all_below W (λ x, P x y)));
    [done|unfold H; lia].
Qed.

Lemma render_is_Some (row col : Z) :
  0 ≤ row ≤ 5 → 0 ≤ col ≤ 5 → is_Some (render row col).
Proof.
  intros Hr Hc.
  assert (all_cells (λ r c, bool_decide (is_Some (render r c))) = true) as Hall
    by (vm_compute; reflexivity).
  eapply bool_decide_eq_true, (all_cells_spec _ Hall); done.
Qed.

(** ** Pixels after a list of writes *)

Lemma getpixel_px_image im x y c X Y :
  getpixel (px_image im (x, y, c)) X Y =
  if decide (X = x ∧ Y = y ∧ in_frame x y = true ∧ alpha c > 0)
  then (λ _, c) <$> getpixel im X Y
  else getpixel im X Y.
Proof.
  simpl. destruct (in_frame x y && (alpha c >? 0)) eqn:E.
  - rewrite getpixel_putpixel. apply andb_true_iff in E as [E1 E2].
    apply Z.gtb_lt in E2.
    destruct (decide (X = x ∧ Y = y)) as [[-> ->]|Hne].
    + rewrite decide_True; [done|]. split_and!; [done..|lia].
    + rewrite decide_False; [done|]. tauto.
  - rewrite decide_False; [done|].
    intros (_ & _ & E1 & E2). rewrite E1 in E. simpl in E.
    rewrite Z.gtb_ltb in E. apply Z.ltb_ge in E. lia.
Qed.

Lemma apply_writes_cons w ws im :
  apply_writes (w :: ws) im = apply_writes ws (px_image im w).
Proof. done. Qed.

Lemma getpixel_apply_misses ws im X Y :
  Forall (misses X Y) ws →
  getpixel (apply_writes ws im) X Y = getpixel im X Y.
Proof.
  intros Hws. revert im.
  induction Hws as [|[[x y] c] ws Hw _ IH]; intros im; [done|].
  rewrite apply_writes_cons, IH.
  rewrite getpixel_px_image. by rewrite decide_False.
Qed.

Lemma misses_outside X Y w : ¬ (0 ≤ X < 64 ∧ 0 ≤ Y < 64) → misses X Y w.
Proof.
  destruct w as [[x y] c]. intros Hout (-> & -> & Hin%in_frame_spec & _).
  done.
Qed.

Lemma px_image_guarded im x y c :
  ¬ (0 ≤ x < 64 ∧ 0 ≤ y < 64) ∨ alpha c ≤ 0 → px_image im (x, y, c) = im.
Proof.
  intros Hguard. simpl.
  destruct (in_frame x y && (alpha c >? 0)) eqn:E; [|done].
  apply andb_true_iff in E as [E1%in_frame_spec E2%Z.gtb_lt]. lia.
Qed.

Lemma apply_writes_guarded ws im :
  Forall (λ w : Write,
            ¬ (0 ≤ w.1.1 < 64 ∧ 0 ≤ w.1.2 < 64) ∨ alpha w.2 ≤ 0) ws →
  apply_writes ws im = im.
Proof.
  intros Hws. revert im.
  induction Hws as [|[[x y] c] ws Hw _ IH]; intros im; [done|].
  rewrite apply_writes_cons.
  rewrite px_image_guarded by done. apply IH.
Qed.

Lemma rect_writes_color x y w h c :
  Forall (λ wr : Write, wr.2 = c) (rect_writes x y w h c).
Proof.
  apply Forall_forall. intros wr. unfold rect_writes.
  intros (dy & Hwr & _)%list_elem_of_bind.
  apply list_elem_of_bind in Hwr as (dx & Hwr & _).
  apply list_elem_of_singleton in Hwr. by subst.
Qed.

Lemma rect_writes_elem x y w h c (wr : Write) :
  wr ∈ rect_writes x y w h c ↔
  ∃ X Y, wr = (X, Y, c) ∧ in_rect x y w h X Y.
Proof.
  unfold rect_writes, in_rect. rewrite list_elem_of_bind. split.
  - intros (dy & (dx & Hwr & Hdx%elem_range)%list_elem_of_bind & Hdy%elem_range).
    apply list_elem_of_singleton in Hwr. subst.
    exists (x + dx), (y + dy). split; [done|lia].
  - intros (X & Y & -> & [HX HY]). exists (Y - y). split.
    + apply list_elem_of_bind. exists (X - x). split.
      * apply list_elem_of_singleton. f_equal. f_equal; lia.
      * apply range_elem. lia.
    + apply range_elem. lia.
Qed.

(** Claim C3.  A [px] call at a coordinate outside the 64x64 frame, or with
    a colour whose alpha is 0 (or less), returns without changing the
    store, whatever the colour.  So does a [rect] call with such a colour,
    and a [rect] call whose rectangle has no coordinate in the frame.  Any
    other [rect] call, with a colour of byte channels, keeps the size of
    the raster and every pixel that is not both in its rectangle and in the
    frame: every write of [rect] goes through the guard of [px].  The
    raster may be of any size (the sheet, say), so it is the guard of [px]
    that keeps the writes out, not the clipping of the image library. *)
Theorem px_rect_guard (σ : Heap) (draw : ref) (im : Image) (color : Color) :
  σ !! draw = Some im →
  (∀ x y, ¬ (0 ≤ x < 64 ∧ 0 ≤ y < 64) ∨ alpha color ≤ 0 →
     px draw x y color σ = Some (tt, σ)) ∧
  (∀ x y w h,
     alpha color ≤ 0 ∨
     (∀ X Y, in_rect x y w h X Y → ¬ (0 ≤ X < 64 ∧ 0 ≤ Y < 64)) →
     rect draw x y w h color σ = Some (tt, σ)) ∧
  (valid_color color →
   ∀ x y w h, ∃ im',
     rect draw x y w h color σ = Some (tt, <[draw := im']> σ) ∧
     im_width im' = im_width im ∧ im_height im' = im_height im ∧
     ∀ X Y, ¬ (in_rect x y w h X Y ∧ 0 ≤ X < 64 ∧ 0 ≤ Y < 64) →
       getpixel im' X Y = getpixel im X Y).
Proof.
  intros Hd. split_and!.
  - intros x y Hguard. unfold px. fold (in_frame x y).
    destruct (in_frame x y && (alpha color >? 0)) eqn:E; [|done].
    apply andb_true_iff in E as [E1%in_frame_spec E2%Z.gtb_lt]. lia.
  - intros x y w h Hguard.
    assert (rect draw x y w h color σ
            = Some (tt, <[draw := apply_writes (rect_writes x y w h color) im]> σ))
      as -> by by rewrite (Draws_rect x y w h color draw σ im Hd).
    rewrite apply_writes_guarded; [by rewrite list_insert_id|].
    apply Forall_forall. intros wr (X & Y & -> & Hin)%rect_writes_elem.
    simpl. destruct Hguard as [Ha|Hout]; [by right|left; by apply Hout].
  - intros _ x y w h. eexists. split_and!.
    + by rewrite (Draws_rect x y w h color draw σ im Hd).
    + apply apply_writes_width.
    + apply apply_writes_height.
    + intros X Y Hout. apply getpixel_apply_misses, Forall_forall.
      intros [[x' y'] c] (X' & Y' & [= -> -> ->] & Hin)%rect_writes_elem.
      intros (-> & -> & HF%in_frame_spec & _). apply Hout. done.
Qed.

(** An instance, on a raster of the size of the sheet: a pixel and a
    rectangle beyond the frame, and a rectangle that straddles its corner,
    which stops at the frame. *)
Lemma px_rect_guard_witness :
  px 0%nat 64 3 SKIN [blank 384 384 TRANSPARENT]
    = Some (tt, [blank 384 384 TRANSPARENT]) ∧
  rect 0%nat 64 64 2 2 SKIN [blank 384 384 TRANSPARENT]
    = Some (tt, [blank 384 384 TRANSPARENT]) ∧
  ∃ im',
    rect 0%nat 62 62 4 4 SKIN [blank 384 384 TRANSPARENT]
      = Some (tt, <[0%nat := im']> [blank 384 384 TRANSPARENT]) ∧
    getpixel im' 64 64 = Some TRANSPARENT ∧
    getpixel im' 0 0 = Some TRANSPARENT.
Proof.
  destruct (px_rect_guard [blank 384 384 TRANSPARENT] 0%nat
              (blank 384 384 TRANSPARENT) SKIN eq_refl)
    as (Hpx & Hoff & Hrect).
  split_and!.
  - apply Hpx. left. lia.
  - apply Hoff. right. unfold in_rect. lia.
  - destruct (Hrect ltac:(unfold valid_color, SKIN; lia) 62 62 4 4)
      as (im' & Hrun & _ & _ & Hkeep).
    exists im'. split_and!; [done| |].
    + rewrite Hkeep by lia. reflexivity.
    + rewrite Hkeep by (unfold in_rect; lia). reflexivity.
Defined.

Lemma getpixel_blank w h c x y :
  0 ≤ x < w → 0 ≤ y < h → getpixel (blank w h c) x y = Some c.
Proof.
  intros Hx Hy. unfold getpixel.
  rewrite (proj2 (in_image_spec (blank w h c) x y)) by done.
  unfold blank, im_rows.
  rewrite lookup_replicate_2 by lia. simpl.
  apply lookup_replicate_2. lia.
Qed.

(** Claim C10.  For a row outside 0..5 and any column, [draw_frame] takes
    no branch and raises nothing: it returns a fresh 64x64 raster whose
    pixels are all transparent. *)
Theorem draw_frame_unknown_row (row col : Z) (σ : Heap) :
  ¬ (0 ≤ row ≤ 5) →
  draw_frame row col σ = Some (length σ, σ ++ [blank 64 64 TRANSPARENT]) ∧
  ∀ x y, 0 ≤ x < 64 → 0 ≤ y < 64 →
    getpixel (blank 64 64 TRANSPARENT) x y = Some TRANSPARENT.
Proof.
  intros Hrow. split.
  - unfold draw_frame.
    rewrite !(proj2 (Z.eqb_neq row _)) by lia.
    reflexivity.
  - intros x y Hx Hy. by apply getpixel_blank.
Qed.

(** An instance: row 6, column -9, on the empty store. *)
Lemma draw_frame_unknown_row_witness :
  draw_frame 6 (-9) [] = Some (0%nat, [blank 64 64 TRANSPARENT]) ∧
  ∀ x y, 0 ≤ x < 64 → 0 ≤ y < 64 →
    getpixel (blank 64 64 TRANSPARENT) x y = Some TRANSPARENT.
Proof. apply (draw_frame_unknown_row 6 (-9) []). lia. Defined.

(** Claim C2.  [draw_frame(row, col)] is deterministic and pure.  Its
    outcome is fixed by [(row, col)] alone: on every store it either raises
    or allocates one fresh raster, the same on every store, returns the
    reference to it and leaves every raster that was in the store as it
    was.  The raster has the shape 64x64, and for [row] and [col] in 0..5
    the call does return. *)
Theorem draw_frame_pure (row col : Z) :
  ∃ o : option Image,
    (∀ σ : Heap, draw_frame row col σ = (λ im, (length σ, σ ++ [im])) <$> o) ∧
    (∀ im, o = Some im → im_width im = 64 ∧ im_height im = 64 ∧ wf_image im) ∧
    (0 ≤ row ≤ 5 → 0 ≤ col ≤ 5 → is_Some o).
Proof.
  exists (render row col). split_and!.
  - apply draw_frame_run.
  - apply render_shape.
  - apply render_is_Some.
Qed.

(** ** Pasting *)

Lemma paste_image_width dst src box :
  im_width (paste_image dst src box) = im_width dst.
Proof. by destruct box. Qed.

Lemma paste_image_height dst src box :
  im_height (paste_image dst src box) = im_height dst.
Proof. by destruct box. Qed.

Lemma paste_image_wf dst src box :
  wf_image dst → wf_image (paste_image dst src box).
Proof.
  destruct box as [ox oy]. intros [Hh Hw]. split; simpl.
  - by rewrite length_imap.
  - apply Forall_lookup. intros i r Hr.
    rewrite list_lookup_imap in Hr.
    destruct (im_rows dst !! i) as [r0|] eqn:E; [|done].
    simpl in Hr. injection Hr as <-. rewrite length_imap.
    by eapply (Forall_lookup_1 _ _ _ _ Hw).
Qed.

(** A pixel of the destination after a paste: the source pixel where the
    source covers it, the old pixel elsewhere. *)
Lemma getpixel_paste_image dst src ox oy X Y :
  getpixel (paste_image dst src (ox, oy)) X Y =
  (λ p, default p (getpixel src (X - ox) (Y - oy))) <$> getpixel dst X Y.
Proof.
  unfold getpixel at 1 3. unfold in_image. simpl.
  fold (in_image dst X Y).
  destruct (in_image dst X Y) eqn:Hin; [|done].
  apply in_image_spec in Hin.
  rewrite list_lookup_imap.
  destruct (im_rows dst !! Z.to_nat Y) as [r|]; [|done]. simpl.
  rewrite list_lookup_imap.
  destruct (r !! Z.to_nat X) as [p|]; [|done]. simpl.
  by rewrite !Z2Nat.id by lia.
Qed.

Lemma getpixel_outside im x y :
  ¬ (0 ≤ x < im_width im ∧ 0 ≤ y < im_height im) → getpixel im x y = None.
Proof.
  intros Hout. unfold getpixel.
  destruct (in_image im x y) eqn:E; [|done].
  by apply in_image_spec in E.
Qed.

(** ** The sheet as a sequence of pastes *)

Lemma bind_run {A B} (m : M A) (k : A → M B) (σ : Heap) :
  (m ≫= k) σ = match m σ with Some (a, σ') => k a σ' | None => None end.
Proof. done. Qed.

Lemma frame_of_shape row col :
  im_width (frame_of row col) = 64 ∧ im_height (frame_of row col) = 64 ∧
  wf_image (frame_of row col).
Proof.
  unfold frame_of. destruct (render row col) as [im|] eqn:E; simpl.
  - by apply (render_shape row col).
  - split_and!; [done..|]. apply blank_wf.
Qed.

Lemma cell_step (s : ref) (σ0 extra : Heap) (S : Image) (row col : Z) :
  (s < length σ0)%nat → is_Some (render row col) →
  (frame ← draw_frame row col; paste s frame (col * W, row * H))
    (<[s := S]> σ0 ++ extra)
  = Some (tt, <[s := paste_cell S (row, col)]> σ0 ++ (extra ++ [frame_of row col])).
Proof.
  intros Hs [im Him]. unfold mbind, M_bind.
  rewrite draw_frame_run, Him. simpl. unfold paste, frame_of. rewrite Him. simpl.
  rewrite (lookup_app_l (_ ++ _)) by (rewrite length_app, length_insert; lia).
  rewrite lookup_app_l by (rewrite length_insert; lia).
  rewrite list_lookup_insert_eq by done.
  rewrite lookup_app_r by lia. rewrite Nat.sub_diag. simpl.
  rewrite <- app_assoc.
  rewrite insert_app_l by (rewrite length_insert; lia).
  by rewrite list_insert_insert_eq.
Qed.

Lemma row_loop (s : ref) (σ0 : Heap) (row : Z) (cols : list Z) :
  (s < length σ0)%nat → (∀ c, c ∈ cols → is_Some (render row c)) →
  ∀ S extra, ∃ extra',
    for_ cols (λ col, frame ← draw_frame row col;
                      paste s frame (col * W, row * H))
      (<[s := S]> σ0 ++ extra)
    = Some (tt, <[s := foldl paste_cell S (grid [row] cols)]> σ0 ++ extra').
Proof.
  intros Hs. unfold grid. simpl. rewrite app_nil_r.
  induction cols as [|c cols IH]; intros Hcols S extra.
  - by exists extra.
  - simpl. unfold mbind at 1, M_bind at 1.
    rewrite cell_step; [|done|apply Hcols; left].
    apply IH. intros c' Hc'. apply Hcols. by right.
Qed.

Lemma grid_loop (s : ref) (σ0 : Heap) (rows cols : list Z) :
  (s < length σ0)%nat →
  (∀ r c, r ∈ rows → c ∈ cols → is_Some (render r c)) →
  ∀ S extra, ∃ extra',
    for_ rows (λ row,
      for_ cols (λ col, frame ← draw_frame row col;
                        paste s frame (col * W, row * H)))
      (<[s := S]> σ0 ++ extra)
    = Some (tt, <[s := foldl paste_cell S (grid rows cols)]> σ0 ++ extra').
Proof.
  intros Hs.
  induction rows as [|r rows IH]; intros Hcells S extra.
  - by exists extra.
  - simpl. unfold mbind at 1, M_bind at 1.
    destruct (row_loop s σ0 r cols Hs) with (S := S) (extra := extra)
      as [extra1 ->].
    { intros c Hc. apply Hcells; [left|done]. }
    destruct IH with (S := foldl paste_cell S (grid [r] cols)) (extra := extra1)
      as [extra2 ->].
    { intros r' c Hr' Hc. apply Hcells; [by right|done]. }
    exists extra2. do 3 f_equal.
    unfold grid. simpl. by rewrite app_nil_r, foldl_app.
Qed.

Lemma paste_cells_cons cell cells S :
  foldl paste_cell S (cell :: cells) = foldl paste_cell (paste_cell S cell) cells.
Proof. done. Qed.

Lemma paste_cell_width S cell : im_width (paste_cell S cell) = im_width S.
Proof. destruct cell. apply paste_image_width. Qed.

Lemma paste_cell_height S cell : im_height (paste_cell S cell) = im_height S.
Proof. destruct cell. apply paste_image_height. Qed.

Lemma paste_cells_width cells S :
  im_width (foldl paste_cell S cells) = im_width S.
Proof.
  revert S. induction cells as [|cell cells IH]; intros S; [done|].
  by rewrite paste_cells_cons, IH, paste_cell_width.
Qed.

Lemma paste_cells_height cells S :
  im_height (foldl paste_cell S cells) = im_height S.
Proof.
  revert S. induction cells as [|cell cells IH]; intros S; [done|].
  by rewrite paste_cells_cons, IH, paste_cell_height.
Qed.

Lemma paste_cells_wf cells S : wf_image S → wf_image (foldl paste_cell S cells).
Proof.
  revert S. induction cells as [|[r c] cells IH]; intros S HS; [done|].
  rewrite paste_cells_cons. apply IH. by apply paste_image_wf.
Qed.

(** The frame of another cell does not reach the pixels of cell [(r, c)]. *)
Lemma paste_cell_other S r c r' c' x y :
  (r', c') ≠ (r, c) → 0 ≤ x < 64 → 0 ≤ y < 64 →
  getpixel (paste_cell S (r', c')) (64 * c + x) (64 * r + y)
  = getpixel S (64 * c + x) (64 * r + y).
Proof.
  intros Hne Hx Hy. unfold paste_cell. rewrite getpixel_paste_image.
  rewrite (getpixel_outside (frame_of r' c')).
  - by destruct (getpixel S _ _).
  - destruct (frame_of_shape r' c') as (-> & -> & _).
    unfold W, H. intros [Hc Hr]. apply Hne. f_equal; lia.
Qed.

Lemma paste_cell_same S r c x y :
  0 ≤ x < 64 → 0 ≤ y < 64 →
  is_Some (getpixel S (64 * c + x) (64 * r + y)) →
  getpixel (paste_cell S (r, c)) (64 * c + x) (64 * r + y)
  = getpixel (frame_of r c) x y.
Proof.
  intros Hx Hy [p Hp]. unfold paste_cell. rewrite getpixel_paste_image, Hp.
  unfold W, H. replace (64 * c + x - c * 64) with x by lia.
  replace (64 * r + y - r * 64) with y by lia.
  destruct (frame_of_shape r c) as (Hw & Hh & Hwf).
  destruct (getpixel_is_Some (frame_of r c) x y Hwf) as [q Hq].
  { apply in_image_spec. lia. }
  by rewrite Hq.
Qed.

Lemma paste_cells_other cells S r c x y :
  (r, c) ∉ cells → 0 ≤ x < 64 → 0 ≤ y < 64 →
  getpixel (foldl paste_cell S cells) (64 * c + x) (64 * r + y)
  = getpixel S (64 * c + x) (64 * r + y).
Proof.
  intros Hnotin Hx Hy. revert S.
  induction cells as [|[r' c'] cells IH]; intros S; [done|].
  apply not_elem_of_cons in Hnotin as [Hne Hnotin].
  rewrite paste_cells_cons, IH by done.
  by apply paste_cell_other.
Qed.

Lemma paste_cells_pixel cells S r c x y :
  NoDup cells → (r, c) ∈ cells → 0 ≤ x < 64 → 0 ≤ y < 64 →
  is_Some (getpixel S (64 * c + x) (64 * r + y)) →
  getpixel (foldl paste_cell S cells) (64 * c + x) (64 * r + y)
  = getpixel (frame_of r c) x y.
Proof.
  intros Hnd Hin Hx Hy. revert S.
  induction Hnd as [|[r' c'] cells Hnotin Hnd IH]; intros S HS.
  - by apply elem_of_nil in Hin.
  - rewrite paste_cells_cons.
    destruct (decide ((r', c') = (r, c))) as [[= -> ->]|Hne].
    + rewrite paste_cells_other by done. by apply paste_cell_same.
    + apply IH.
      * apply elem_of_cons in Hin as [Heq|Hin]; [congruence|done].
      * by rewrite paste_cell_other.
Qed.

Lemma grid_elem rows cols r c : r ∈ rows → c ∈ cols → (r, c) ∈ grid rows cols.
Proof.
  intros Hr Hc. unfold grid. apply list_elem_of_bind. exists r. split; [|done].
  apply list_elem_of_bind. exists c. split; [|done]. by left.
Qed.

Lemma grid_NoDup : NoDup (grid (range ROWS) (range COLS)).
Proof. refine (bool_decide_eq_true_1 _ _). vm_compute. reflexivity. Qed.

(** Claim C1.  On every store [generate_sprite_sheet] returns a fresh
    raster of size 384x384, and for every row [r] and column [c] in 0..5 the
    square [64c, 64c+64) x [64r, 64r+64) of the sheet equals, pixel for
    pixel, the raster that [draw_frame(r, c)] returns. *)
Theorem generate_sprite_sheet_layout (σ : Heap) :
  ∃ (sheet : Image) (σ' : Heap),
    generate_sprite_sheet σ = Some (length σ, σ') ∧
    σ' !! length σ = Some sheet ∧
    im_width sheet = 384 ∧ im_height sheet = 384 ∧ wf_image sheet ∧
    ∀ r c, 0 ≤ r ≤ 5 → 0 ≤ c ≤ 5 →
      ∃ frame,
        (∀ σ0 : Heap, draw_frame r c σ0 = Some (length σ0, σ0 ++ [frame])) ∧
        ∀ x y, 0 ≤ x < 64 → 0 ≤ y < 64 →
          is_Some (getpixel frame x y) ∧
          getpixel sheet (64 * c + x) (64 * r + y) = getpixel frame x y.
Proof.
  set (S0 := blank SHEET_W SHEET_H TRANSPARENT).
  set (cells := grid (range ROWS) (range COLS)).
  destruct (grid_loop (length σ) (σ ++ [S0]) (range ROWS) (range COLS))
    with (S := S0) (extra := @nil Image) as [extra Hloop].
  { rewrite length_app. simpl. lia. }
  { intros r c Hr%elem_range Hc%elem_range.
    apply render_is_Some; unfold ROWS, COLS in *; lia. }
  exists (foldl paste_cell S0 cells), (<[length σ := foldl paste_cell S0 cells]> (σ ++ [S0]) ++ extra).
  split_and!.
  - unfold generate_sprite_sheet. rewrite bind_run.
    unfold Image_new. fold S0. rewrite bind_run.
    rewrite app_nil_r in Hloop.
    rewrite list_insert_id in Hloop
      by (rewrite lookup_app_r by lia; by rewrite Nat.sub_diag).
    by rewrite Hloop.
  - rewrite lookup_app_l by (rewrite length_insert, length_app; simpl; lia).
    apply list_lookup_insert_eq. rewrite length_app. simpl. lia.
  - by rewrite paste_cells_width.
  - by rewrite paste_cells_height.
  - apply paste_cells_wf, blank_wf.
  - intros r c Hr Hc. exists (frame_of r c).
    destruct (render_is_Some r c Hr Hc) as [im Him].
    split.
    + intros σ0. rewrite draw_frame_run. unfold frame_of. by rewrite Him.
    + intros x y Hx Hy.
      destruct (frame_of_shape r c) as (Hw & Hh & Hwf).
      split.
      * apply getpixel_is_Some; [done|]. apply in_image_spec. lia.
      * apply paste_cells_pixel; [apply grid_NoDup| |done..|].
        -- apply grid_elem; apply range_elem; unfold ROWS, COLS; lia.
        -- apply getpixel_is_Some; [apply blank_wf|].
           apply in_image_spec. simpl. unfold SHEET_W, SHEET_H, W, H, COLS, ROWS.
           lia.
Qed.

(** An instance: the sheet generated on the empty store. *)
Lemma generate_sprite_sheet_layout_witness :
  ∃ (sheet : Image) (σ' : Heap),
    generate_sprite_sheet [] = Some (0%nat, σ') ∧
    σ' !! 0%nat = Some sheet ∧
    im_width sheet = 384 ∧ im_height sheet = 384 ∧ wf_image sheet ∧
    ∀ r c, 0 ≤ r ≤ 5 → 0 ≤ c ≤ 5 →
      ∃ frame,
        (∀ σ0 : Heap, draw_frame r c σ0 = Some (length σ0, σ0 ++ [frame])) ∧
        ∀ x y, 0 ≤ x < 64 → 0 ≤ y < 64 →
          is_Some (getpixel frame x y) ∧
          getpixel sheet (64 * c + x) (64 * r + y) = getpixel frame x y.
Proof. exact (generate_sprite_sheet_layout []). Defined.

(** ** The monitors *)

Lemma getpixel_apply_congr ws im im' X Y :
  getpixel im X Y = getpixel im' X Y →
  getpixel (apply_writes ws im) X Y = getpixel (apply_writes ws im') X Y.
Proof.
  revert im im'. induction ws as [|[[x y] c] ws IH]; intros im im' Heq; [done|].
  rewrite !apply_writes_cons. apply IH.
  rewrite !getpixel_px_image. by rewrite Heq.
Qed.

(** Dropping writes that do not show at [(X, Y)] does not change the pixel
    at [(X, Y)]. *)
Lemma getpixel_apply_filter (P : Write → Prop) `{!∀ w, Decision (P w)}
    ws im X Y :
  (∀ w, w ∈ ws → ¬ P w → misses X Y w) →
  getpixel (apply_writes (filter P ws) im) X Y
  = getpixel (apply_writes ws im) X Y.
Proof.
  revert im. induction ws as [|w ws IH]; intros im Hdrop; [done|].
  rewrite filter_cons, apply_writes_cons.
  destruct (decide (P w)) as [HP|HP].
  - rewrite apply_writes_cons. apply IH.
    intros w' Hw'. apply Hdrop. by right.
  - rewrite IH by (intros w' Hw'; apply Hdrop; by right).
    apply getpixel_apply_congr. symmetry.
    apply (getpixel_apply_misses [w]). apply Forall_singleton.
    apply Hdrop; [by left|done].
Qed.

Lemma draw_monitors_normal (lg rg : Color) :
  Draws (λ d, draw_monitors d lg rg 0)
        (Some (monitor_bodies ++ line_chart lg [] ++ candles rg)).
Proof. eapply Draws_eq; [draws|reflexivity]. Qed.

Lemma draw_monitors_flicker (lg rg : Color) :
  Draws (λ d, draw_monitors d lg rg 1)
        (Some (monitor_bodies ++ line_chart lg [0; 3; 6; 9] ++ candles rg)).
Proof. eapply Draws_eq; [draws|reflexivity]. Qed.

Lemma draw_monitors_off (lg rg : Color) :
  Draws (λ d, draw_monitors d lg rg 2) (Some monitor_bodies).
Proof. eapply Draws_eq; [draws|reflexivity]. Qed.

Lemma line_chart_flicker (lg : Color) :
  line_chart lg [0; 3; 6; 9]
  = filter (λ w : Write, w.1 ∉ skipped_points) (line_chart lg []).
Proof. reflexivity. Qed.

Lemma flicker_rest_off_skipped (lg rg : Color) :
  Forall (λ w : Write, w.1 ∉ skipped_points)
    (line_chart lg [0; 3; 6; 9] ++ candles rg).
Proof. refine (bool_decide_eq_true_1 _ _). vm_compute. reflexivity. Qed.

(** Claim C9.  For any glow colours of byte channels, [draw_monitors] with flicker 0 performs
    the writes of the monitor bodies, of the ten points of the line chart
    and of the candle bars; with flicker 1 it performs the same writes
    without the chart points 0, 3, 6 and 9.  The two rasters agree at every
    pixel that is not one of those four points (two pixels each), so in
    particular on the whole right monitor; at those points flicker 1 shows
    the monitor body. *)
Theorem flicker_only_line_chart (lg rg : Color) (σ : Heap) (d : ref)
    (im : Image) :
  valid_color lg → valid_color rg →
  σ !! d = Some im →
  let im0 :=
    apply_writes (monitor_bodies ++ line_chart lg [] ++ candles rg) im in
  let im1 :=
    apply_writes (monitor_bodies ++ line_chart lg [0; 3; 6; 9] ++ candles rg) im in
  draw_monitors d lg rg 0 σ = Some (tt, <[d := im0]> σ) ∧
  draw_monitors d lg rg 1 σ = Some (tt, <[d := im1]> σ) ∧
  (∀ X Y, (X, Y) ∉ skipped_points → getpixel im1 X Y = getpixel im0 X Y) ∧
  (∀ X Y, 24 ≤ X → getpixel im1 X Y = getpixel im0 X Y) ∧
  (∀ X Y, (X, Y) ∈ skipped_points →
     getpixel im1 X Y = getpixel (apply_writes monitor_bodies im) X Y).
Proof.
  intros _ _ Hd im0 im1.
  assert (∀ X Y, (X, Y) ∉ skipped_points → getpixel im1 X Y = getpixel im0 X Y)
    as Hsame.
  { intros X Y Hns. unfold im0, im1.
    rewrite !apply_writes_app. apply getpixel_apply_congr.
    rewrite line_chart_flicker. apply getpixel_apply_filter.
    intros [[x y] c] _ Hin. apply dec_stable in Hin. simpl in Hin.
    intros (-> & -> & _). done. }
  split_and!.
  - by rewrite (draw_monitors_normal lg rg d σ im Hd).
  - by rewrite (draw_monitors_flicker lg rg d σ im Hd).
  - done.
  - intros X Y HX. apply Hsame. unfold skipped_points.
    rewrite !not_elem_of_cons. split_and!;
      try (intros [= -> _]; lia). apply not_elem_of_nil.
  - intros X Y Hs. unfold im1. rewrite apply_writes_app.
    apply getpixel_apply_misses.
    eapply Forall_impl; [apply flicker_rest_off_skipped|].
    intros [[x y] c] Hns (-> & -> & _). done.
Qed.

(** An instance: the red monitors of the worried row on a blank frame. *)
Lemma flicker_only_line_chart_witness :
  let im := blank 64 64 TRANSPARENT in
  let im0 :=
    apply_writes
      (monitor_bodies ++ line_chart MONITOR_RED [] ++ candles MONITOR_RED) im in
  let im1 :=
    apply_writes
      (monitor_bodies ++ line_chart MONITOR_RED [0; 3; 6; 9]
         ++ candles MONITOR_RED) im in
  draw_monitors 0%nat MONITOR_RED MONITOR_RED 0 [im]
    = Some (tt, <[0%nat := im0]> [im]) ∧
  draw_monitors 0%nat MONITOR_RED MONITOR_RED 1 [im]
    = Some (tt, <[0%nat := im1]> [im]) ∧
  (∀ X Y, (X, Y) ∉ skipped_points → getpixel im1 X Y = getpixel im0 X Y) ∧
  (∀ X Y, 24 ≤ X → getpixel im1 X Y = getpixel im0 X Y) ∧
  (∀ X Y, (X, Y) ∈ skipped_points →
     getpixel im1 X Y = getpixel (apply_writes monitor_bodies im) X Y).
Proof.
  apply (flicker_only_line_chart MONITOR_RED MONITOR_RED
           [blank 64 64 TRANSPARENT] 0%nat (blank 64 64 TRANSPARENT)).
  - unfold valid_color, MONITOR_RED. lia.
  - unfold valid_color, MONITOR_RED. lia.
  - reflexivity.
Defined.

(** ** The sleep marks *)

Lemma draw_zzz_draws (frame : Z) :
  0 ≤ frame ≤ 5 →
  Draws (λ d, draw_zzz d frame) (Some (zzz_writes zzz_below frame)).
Proof.
  intros Hf. cases6 frame; (eapply Draws_eq; [draws|reflexivity]).
Qed.

(** Claim C7, as amended.  For every frame index in 0..5, [draw_zzz] performs
    the writes of its three slots in order: slot [i] with phase
    [f = (frame + i) mod 6] draws its glyph [f] pixels above its anchor with
    alpha [max(0, 255 - 40 f)], one pixel for slots 0 and 1 and the bent
    three-wide shape for slot 2, exactly when [f < 3 + i]; the slot is
    hidden as soon as its phase reaches [3 + i]. *)
Theorem draw_zzz_slots (frame : Z) (σ : Heap) (d : ref) (im : Image) :
  0 ≤ frame ≤ 5 → σ !! d = Some im →
  draw_zzz d frame σ
  = Some (tt, <[d := apply_writes (zzz_writes zzz_below frame) im]> σ).
Proof.
  intros Hf Hd. by rewrite (draw_zzz_draws frame Hf d σ im Hd).
Qed.

(** An instance: frame 2 on a blank frame, where the three slots have the
    phases 2, 3 and 4 and are all drawn, 2, 3 and 4 pixels above their
    anchors, with the alphas 175, 135 and 95. *)
Lemma draw_zzz_slots_witness :
  draw_zzz 0%nat 2 [blank 64 64 TRANSPARENT]
  = Some (tt, <[0%nat := apply_writes (zzz_writes zzz_below 2)
                            (blank 64 64 TRANSPARENT)]>
                [blank 64 64 TRANSPARENT]) ∧
  zzz_writes zzz_below 2
  = [(36, 20, (170, 190, 240, 175));
     (40, 15, (170, 190, 240, 135));
     (44, 10, (170, 190, 240, 95)); (45, 10, (170, 190, 240, 95));
     (46, 10, (170, 190, 240, 95));
     (46, 11, (170, 190, 240, 95));
     (44, 12, (170, 190, 240, 95)); (45, 12, (170, 190, 240, 95));
     (46, 12, (170, 190, 240, 95))].
Proof.
  split.
  - apply (draw_zzz_slots 2 [blank 64 64 TRANSPARENT] 0%nat
             (blank 64 64 TRANSPARENT)); [lia|reflexivity].
  - reflexivity.
Defined.

(** C7, as stated: at frame 3 every slot sits exactly on its threshold
    (phases 3, 4, 5 for slots 0, 1, 2); the code draws nothing, the claim
    would have all three glyphs drawn. *)
Lemma draw_zzz_threshold_hidden :
  draw_zzz 0%nat 3 [blank 64 64 TRANSPARENT]
    = Some (tt, [blank 64 64 TRANSPARENT]) ∧
  getpixel (apply_writes (zzz_writes zzz_up_to 3) (blank 64 64 TRANSPARENT)) 36 19
    = Some (170, 190, 240, 135) ∧
  draw_zzz 0%nat 3 [blank 64 64 TRANSPARENT]
    ≠ Some (tt, <[0%nat := apply_writes (zzz_writes zzz_up_to 3)
                              (blank 64 64 TRANSPARENT)]>
                  [blank 64 64 TRANSPARENT]).
Proof.
  split_and!.
  - vm_compute. reflexivity.
  - vm_compute. reflexivity.
  - intros Heq.
    apply (f_equal (λ o : option (unit * Heap),
             o ≫= λ '(_, σ), σ !! 0%nat ≫= λ im, getpixel im 36 19)) in Heq.
    vm_compute in Heq. discriminate.
Qed.

(** ** Frames of single scenes *)

Lemma check1_spec o P : check1 o P = true → ∃ im, o = Some im ∧ P im = true.
Proof. destruct o as [im|]; [|done]. intros. by exists im. Qed.

Lemma check2_spec oa ob P :
  check2 oa ob P = true → ∃ a b, oa = Some a ∧ ob = Some b ∧ P a b = true.
Proof.
  destruct oa as [a|], ob as [b|]; try done. intros. by exists a, b.
Qed.

Lemma pixel_is_spec im x y c : pixel_is im x y c = true → getpixel im x y = Some c.
Proof. apply bool_decide_eq_true_1. Qed.

Lemma is_frame_spec im :
  is_frame im = true → im_width im = 64 ∧ im_height im = 64.
Proof. unfold is_frame. rewrite andb_true_iff. lia. Qed.

Lemma agree_off_spec skip a b :
  agree_off skip a b = true →
  ∀ x y, (x, y) ∉ skip → getpixel a x y = getpixel b x y.
Proof.
  unfold agree_off. rewrite !andb_true_iff.
  intros [[[Hwa Hha]%is_frame_spec [Hwb Hhb]%is_frame_spec] Hall] x y Hskip.
  destruct (decide (0 ≤ x < 64 ∧ 0 ≤ y < 64)) as [[Hx Hy]|Hout].
  - pose proof (all_pixels_spec _ Hall x y Hx Hy) as Hxy. simpl in Hxy.
    apply orb_true_iff in Hxy as [Hin|Heq].
    + by apply bool_decide_eq_true_1 in Hin.
    + by apply bool_decide_eq_true_1 in Heq.
  - rewrite !getpixel_outside; [done|lia..].
Qed.

Lemma shows_through_spec l a b c :
  shows_through l a b c = true →
  ∀ x y, (x, y) ∈ l →
    getpixel a x y = getpixel c x y ∧ getpixel a x y ≠ getpixel b x y.
Proof.
  unfold shows_through. rewrite forallb_forall. intros Hall x y Hin.
  apply list_elem_of_In, Hall in Hin. simpl in Hin.
  apply andb_true_iff in Hin as [H1 H2]. split.
  - by apply bool_decide_eq_true_1 in H1.
  - apply negb_true_iff in H2. by apply bool_decide_eq_false_1 in H2.
Qed.

(** ** The idle row *)

(** Claim C5, as amended.  At column 3 the idle row reads [-1] from its own
    offset table and its blink test [col == 3] holds: the frame of (0, 3) is
    the idle scene drawn one pixel up with the eyes closed.  The four
    pixels of the closed eyes are on line 29, with skin above and below, and
    the top of the hood is on line 23. *)
Theorem idle_col3_blinks_raised (σ : Heap) :
  subscript [0; 0; -1; -1; 0; 0] 3 = Some (-1) ∧ (3 =? 3) = true ∧
  ∃ im,
    draw_frame 0 3 σ = Some (length σ, σ ++ [im]) ∧
    draw_on_blank (λ d, idle_scene d (-1) true "desk" 0) = Some im ∧
    getpixel im 30 29 = Some OUTLINE ∧ getpixel im 31 29 = Some OUTLINE ∧
    getpixel im 33 29 = Some OUTLINE ∧ getpixel im 34 29 = Some OUTLINE ∧
    getpixel im 30 28 = Some SKIN ∧ getpixel im 30 30 = Some SKIN ∧
    getpixel im 28 23 = Some HOODIE_LIGHT.
Proof.
  split_and!; [done..|].
  assert (check1 (render 0 3) (λ im,
            bool_decide (draw_on_blank (λ d, idle_scene d (-1) true "desk" 0)
                         = Some im) &&
            pixel_is im 30 29 OUTLINE && pixel_is im 31 29 OUTLINE &&
            pixel_is im 33 29 OUTLINE && pixel_is im 34 29 OUTLINE &&
            pixel_is im 30 28 SKIN && pixel_is im 30 30 SKIN &&
            pixel_is im 28 23 HOODIE_LIGHT) = true) as Hchk
    by (vm_compute; reflexivity).
  apply check1_spec in Hchk as (im & Him & Hchk).
  rewrite !andb_true_iff in Hchk.
  destruct Hchk as [[[[[[[H0 H1] H2] H3] H4] H5] H6] H7].
  exists im. rewrite draw_frame_run, Him.
  split_and!; [done|by apply bool_decide_eq_true_1 in H0
              |by apply pixel_is_spec..].
Qed.

(** C5, as stated: the frame of (0, 3) is not the idle scene with the eyes
    open at offset 0; where that scene has the white of the left eye, the
    frame has the line of a closed eye. *)
Lemma idle_col3_not_open_at_rest :
  render 0 3 ≠ draw_on_blank (λ d, idle_scene d 0 false "desk" 0) ∧
  (render 0 3 ≫= λ im, getpixel im 30 29) = Some OUTLINE ∧
  (draw_on_blank (λ d, idle_scene d 0 false "desk" 0)
     ≫= λ im, getpixel im 30 29) = Some EYE_WHITE.
Proof.
  split_and!.
  - intros Heq.
    apply (f_equal (λ o : option Image, o ≫= λ im, getpixel im 30 29)) in Heq.
    vm_compute in Heq. discriminate.
  - vm_compute. reflexivity.
  - vm_compute. reflexivity.
Qed.

(** Claim C8, as amended.  The frame of (0, 2), whose body is drawn with the
    arms on the desk and then once more with [typing_r], equals the frame
    of the scene drawn once with [typing_r] at every pixel but seven: the
    pixels of the right forearm and hand of the desk pose that the second
    draw does not cover.  There the frame shows what the scene drawn once
    with the arms on the desk shows, and differs from the single draw. *)
Theorem idle_click_double_draw (σ : Heap) :
  ∃ im once desk,
    draw_frame 0 2 σ = Some (length σ, σ ++ [im]) ∧
    draw_on_blank (λ d, idle_scene_once d (-1) false "typing_r" 1) = Some once ∧
    draw_on_blank (λ d, idle_scene_once d (-1) false "desk" 1) = Some desk ∧
    (∀ x y, (x, y) ∉ desk_arm_leftover → getpixel im x y = getpixel once x y) ∧
    (∀ x y, (x, y) ∈ desk_arm_leftover →
       getpixel im x y = getpixel desk x y ∧ getpixel im x y ≠ getpixel once x y).
Proof.
  assert (check2 (render 0 2)
            (draw_on_blank (λ d, idle_scene_once d (-1) false "typing_r" 1))
            (λ im once,
               agree_off desk_arm_leftover im once &&
               check1 (draw_on_blank (λ d, idle_scene_once d (-1) false "desk" 1))
                 (λ desk, shows_through desk_arm_leftover im once desk))
          = true) as Hchk by (vm_compute; reflexivity).
  apply check2_spec in Hchk as (im & once & Him & Honce & Hchk).
  apply andb_true_iff in Hchk as [Hoff Hdesk].
  apply check1_spec in Hdesk as (desk & Hdesk & Hthrough).
  exists im, once, desk. rewrite draw_frame_run, Him.
  split_and!; [done..| |].
  - by apply agree_off_spec.
  - by apply shows_through_spec.
Qed.

(** C8, as stated: the frame of (0, 2) is not the frame of the scene drawn
    once with [typing_r]; at (38, 41) the forearm of the first draw is
    left, where a single draw leaves the pixel transparent. *)
Lemma idle_click_not_single_draw :
  render 0 2 ≠ draw_on_blank (λ d, idle_scene_once d (-1) false "typing_r" 1) ∧
  (render 0 2 ≫= λ im, getpixel im 38 41) = Some HOODIE ∧
  (draw_on_blank (λ d, idle_scene_once d (-1) false "typing_r" 1)
     ≫= λ im, getpixel im 38 41) = Some TRANSPARENT.
Proof.
  split_and!.
  - intros Heq.
    apply (f_equal (λ o : option Image, o ≫= λ im, getpixel im 38 41)) in Heq.
    vm_compute in Heq. discriminate.
  - vm_compute. reflexivity.
  - vm_compute. reflexivity.
Qed.

(** ** The worried row *)

Lemma same_face_spec a b :
  same_face a b = true →
  ∀ x y, 28 ≤ x < 36 → 26 ≤ y < 35 → getpixel a x y = getpixel b x y.
Proof.
  intros Hall x y Hx Hy.
  pose proof (all_pixels_spec _ Hall x y) as Hxy. simpl in Hxy.
  apply orb_true_iff in Hxy as [Hout|Heq]; [|by apply bool_decide_eq_true_1 in Heq|lia..].
  apply negb_true_iff in Hout. unfold in_face in Hout.
  rewrite !andb_false_iff in Hout. lia.
Qed.

(** Claim C6.  For every column in 0..5 the frame of (4, col) is the
    worried scene, in which the head is drawn with the eyes [wide] and the
    mouth [flat] whatever the column; only the flicker, the arm pose and the
    gaze come from the column.  The face of the frame is, pixel for pixel,
    the face of a head drawn with wide eyes and a flat mouth, and the
    pixels of the wide eyes and of the flat mouth are where they belong. *)
Theorem worried_wide_flat (col : Z) (σ : Heap) :
  0 ≤ col ≤ 5 →
  ∃ (im head : Image) (arms : string) (look_dir : Z),
    draw_frame 4 col σ = Some (length σ, σ ++ [im]) ∧
    draw_on_blank (λ d, worried_scene d (worried_flicker col) arms look_dir col)
      = Some im ∧
    draw_on_blank (λ d, draw_head d 0 "wide" false 0 "flat") = Some head ∧
    (∀ x y, 28 ≤ x < 36 → 26 ≤ y < 35 → getpixel im x y = getpixel head x y) ∧
    wide_eyes_flat_mouth im = true.
Proof.
  intros Hcol.
  set (table_arms := ["typing_l"; "desk"; "typing_r"; "desk"; "typing_l";
                      "typing_r"]%string).
  set (table_look := [0; 1; 1; -1; -1; 0]).
  assert (all_below 6 (λ c,
            check2 (render 4 c)
              (draw_on_blank (λ d, draw_head d 0 "wide" false 0 "flat"))
              (λ im head,
                 bool_decide
                   (draw_on_blank (λ d,
                      worried_scene d (worried_flicker c)
                        (default ""%string (subscript table_arms c))
                        (default 0 (subscript table_look c)) c) = Some im) &&
                 same_face im head && wide_eyes_flat_mouth im)) = true)
    as Hall by (vm_compute; reflexivity).
  pose proof (all_below_spec _ _ Hall col) as Hchk. cbv beta in Hchk.
  apply check2_spec in Hchk as (im & head & Him & Hhead & Hchk); [|lia].
  rewrite !andb_true_iff in Hchk. destruct Hchk as [[Hscene Hface] Hpix].
  exists im, head, (default ""%string (subscript table_arms col)),
    (default 0 (subscript table_look col)).
  rewrite draw_frame_run, Him.
  split_and!; [done|by apply bool_decide_eq_true_1 in Hscene|done| |done].
  by apply same_face_spec.
Qed.

(** An instance: column 3 on the empty store. *)
Lemma worried_wide_flat_witness :
  ∃ (im head : Image) (arms : string) (look_dir : Z),
    draw_frame 4 3 [] = Some (0%nat, [] ++ [im]) ∧
    draw_on_blank (λ d, worried_scene d (worried_flicker 3) arms look_dir 3)
      = Some im ∧
    draw_on_blank (λ d, draw_head d 0 "wide" false 0 "flat") = Some head ∧
    (∀ x y, 28 ≤ x < 36 → 26 ≤ y < 35 → getpixel im x y = getpixel head x y) ∧
    wide_eyes_flat_mouth im = true.
Proof. apply (worried_wide_flat 3 []). lia. Defined.

(** ** The sleeping row *)

Lemma screens_off_spec im :
  screens_off im = true →
  ∀ x y, 0 ≤ x < 64 → 0 ≤ y < 64 →
    (in_screen x y = true →
     getpixel im x y
     = Some (if chair_column x then CHAIR_BACK else MONITOR_SCREEN)) ∧
    ∃ c, getpixel im x y = Some c ∧
         same_rgb c MONITOR_BLUE = false ∧ same_rgb c MONITOR_GREEN = false.
Proof.
  intros Hall x y Hx Hy.
  pose proof (all_pixels_spec _ Hall x y Hx Hy) as Hxy. simpl in Hxy.
  apply andb_true_iff in Hxy as [Hscr Hglow]. split.
  - intros Hin. rewrite Hin in Hscr. simpl in Hscr. by apply pixel_is_spec.
  - destruct (getpixel im x y) as [c|]; [|done]. exists c.
    apply andb_true_iff in Hglow as [H1%negb_true_iff H2%negb_true_iff]. done.
Qed.

(** Claim C4, as amended.  With flicker 2, [draw_monitors] performs the
    writes of the monitor bodies and nothing else, for any glow colours.
    For every column in 0..5, every pixel of the two screens in the frame
    of (2, col) has the screen colour, except on the one column of each
    screen (x = 23 and x = 40) that the side strips of the chair, drawn
    after the monitors, cover; and no pixel of the frame has the hue of a
    glow colour, so there is no chart or candle pixel. *)
Theorem sleeping_screens_off (col : Z) (σ : Heap) :
  0 ≤ col ≤ 5 →
  (∀ lg rg d (σ' : Heap) im', σ' !! d = Some im' →
     draw_monitors d lg rg 2 σ'
     = Some (tt, <[d := apply_writes monitor_bodies im']> σ')) ∧
  ∃ im,
    draw_frame 2 col σ = Some (length σ, σ ++ [im]) ∧
    ∀ x y, 0 ≤ x < 64 → 0 ≤ y < 64 →
      (in_screen x y = true →
       getpixel im x y
       = Some (if chair_column x then CHAIR_BACK else MONITOR_SCREEN)) ∧
      ∃ c, getpixel im x y = Some c ∧
           same_rgb c MONITOR_BLUE = false ∧ same_rgb c MONITOR_GREEN = false.
Proof.
  intros Hcol. split.
  - intros lg rg d σ' im' Hd.
    by rewrite (draw_monitors_off lg rg d σ' im' Hd).
  - assert (all_below 6 (λ c, check1 (render 2 c) screens_off) = true) as Hall
      by (vm_compute; reflexivity).
    pose proof (all_below_spec _ _ Hall col) as Hchk. cbv beta in Hchk.
    apply check1_spec in Hchk as (im & Him & Hchk); [|lia].
    exists im. rewrite draw_frame_run, Him. split; [done|].
    by apply screens_off_spec.
Qed.

(** An instance: column 0 on the empty store. *)
Lemma sleeping_screens_off_witness :
  (∀ lg rg d (σ' : Heap) im', σ' !! d = Some im' →
     draw_monitors d lg rg 2 σ'
     = Some (tt, <[d := apply_writes monitor_bodies im']> σ')) ∧
  ∃ im,
    draw_frame 2 0 [] = Some (0%nat, [] ++ [im]) ∧
    ∀ x y, 0 ≤ x < 64 → 0 ≤ y < 64 →
      (in_screen x y = true →
       getpixel im x y
       = Some (if chair_column x then CHAIR_BACK else MONITOR_SCREEN)) ∧
      ∃ c, getpixel im x y = Some c ∧
           same_rgb c MONITOR_BLUE = false ∧ same_rgb c MONITOR_GREEN = false.
Proof. apply (sleeping_screens_off 0 []). lia. Defined.

(** C4, as stated: in the first sleeping frame the pixel (23, 31), the
    top-right pixel of the left screen, has the colour of the chair, not
    the screen colour. *)
Lemma sleeping_screen_chair_pixel :
  in_screen 23 31 = true ∧
  (render 2 0 ≫= λ im, getpixel im 23 31) = Some CHAIR_BACK ∧
  (render 2 0 ≫= λ im, getpixel im 23 31) ≠ Some MONITOR_SCREEN.
Proof.
  split_and!.
  - reflexivity.
  - vm_compute. reflexivity.
  - vm_compute. discriminate.
Qed.

(** * Further properties of the code *)

(** ** The primitives *)

Lemma putpixel_putpixel_same im x y c1 c2 :
  putpixel (putpixel im x y c1) x y c2 = putpixel im x y c2.
Proof.
  unfold putpixel at 1. rewrite in_image_putpixel.
  unfold putpixel. destruct (in_image im x y); [|done]. simpl.
  f_equal. rewrite list_alter_alter_eq. apply list_alter_ext; [|done].
  intros r _. simpl. apply list_insert_insert_eq.
Qed.

Lemma putpixel_putpixel_other im x1 y1 c1 x2 y2 c2 :
  (x1, y1) ≠ (x2, y2) →
  putpixel (putpixel im x1 y1 c1) x2 y2 c2
  = putpixel (putpixel im x2 y2 c2) x1 y1 c1.
Proof.
  intros Hne. unfold putpixel at 1 3. rewrite !in_image_putpixel.
  unfold putpixel.
  destruct (in_image im x1 y1) eqn:H1, (in_image im x2 y2) eqn:H2;
    simpl; try done.
  apply in_image_spec in H1. apply in_image_spec in H2.
  f_equal. destruct (decide (y1 = y2)) as [->|Hy].
  - rewrite !list_alter_alter_eq. apply list_alter_ext; [|done].
    intros r _. simpl. apply list_insert_insert_ne.
    intros Heq. apply Hne. f_equal. lia.
  - apply list_alter_alter_ne. lia.
Qed.

Lemma px_run (d : ref) (σ : Heap) (im : Image) x y c :
  σ !! d = Some im →
  px d x y c σ = Some (tt, <[d := px_image im (x, y, c)]> σ).
Proof.
  intros Hd. by rewrite (Draws_px x y c d σ im Hd).
Qed.

(** Extra X1.  A [px] call inside the frame with a colour of byte channels
    and positive alpha stores the colour: afterwards the pixel at [(x, y)] reads as that
    colour (when the raster has such a pixel), every other pixel reads as
    before, and the size of the raster is kept. *)
Theorem px_stores_colour (σ : Heap) (draw : ref) (im : Image) (color : Color)
    (x y : Z) :
  σ !! draw = Some im → valid_color color →
  0 ≤ x < 64 → 0 ≤ y < 64 → alpha color > 0 →
  ∃ im',
    px draw x y color σ = Some (tt, <[draw := im']> σ) ∧
    im_width im' = im_width im ∧ im_height im' = im_height im ∧
    getpixel im' x y = (λ _, color) <$> getpixel im x y ∧
    ∀ X Y, (X, Y) ≠ (x, y) → getpixel im' X Y = getpixel im X Y.
Proof.
  intros Hd _ Hx Hy Ha. exists (px_image im (x, y, color)).
  split_and!.
  - by apply px_run.
  - apply px_image_width.
  - apply px_image_height.
  - rewrite getpixel_px_image. rewrite decide_True; [done|].
    split_and!; [done..| |done]. by apply in_frame_spec.
  - intros X Y Hne. rewrite getpixel_px_image.
    rewrite decide_False; [done|]. intros (-> & -> & _). done.
Qed.

(** An instance: a skin pixel in the middle of a blank frame. *)
Lemma px_stores_colour_witness :
  ∃ im',
    px 0%nat 32 32 SKIN [blank 64 64 TRANSPARENT]
      = Some (tt, <[0%nat := im']> [blank 64 64 TRANSPARENT]) ∧
    im_width im' = im_width (blank 64 64 TRANSPARENT) ∧
    im_height im' = im_height (blank 64 64 TRANSPARENT) ∧
    getpixel im' 32 32
      = (λ _, SKIN) <$> getpixel (blank 64 64 TRANSPARENT) 32 32 ∧
    ∀ X Y, (X, Y) ≠ (32, 32) →
      getpixel im' X Y = getpixel (blank 64 64 TRANSPARENT) X Y.
Proof.
  apply (px_stores_colour [blank 64 64 TRANSPARENT] 0%nat
           (blank 64 64 TRANSPARENT) SKIN 32 32);
    [reflexivity|unfold valid_color, SKIN; lia|lia|lia|reflexivity].
Defined.

Lemma px_image_px_image_same im x y c1 c2 :
  alpha c2 > 0 →
  px_image (px_image im (x, y, c1)) (x, y, c2) = px_image im (x, y, c2).
Proof.
  intros Ha. simpl.
  destruct (in_frame x y); simpl; [|done].
  rewrite (proj2 (Z.gtb_gt _ _)) by lia.
  destruct (alpha c1 >? 0); [|done]. apply putpixel_putpixel_same.
Qed.

Lemma px_image_px_image_other im x1 y1 c1 x2 y2 c2 :
  (x1, y1) ≠ (x2, y2) →
  px_image (px_image im (x1, y1, c1)) (x2, y2, c2)
  = px_image (px_image im (x2, y2, c2)) (x1, y1, c1).
Proof.
  intros Hne. simpl.
  destruct (in_frame x1 y1 && (alpha c1 >? 0)),
    (in_frame x2 y2 && (alpha c2 >? 0)); try done.
  by apply putpixel_putpixel_other.
Qed.

(** Extra X2.  Painter's order, for colours of byte channels: two [px]
    calls at different coordinates can be swapped, and of two calls at the same coordinate the later one wins
    when its colour has positive alpha (and does nothing when it has
    not). *)
Theorem px_last_write_wins (σ : Heap) (draw : ref) (im : Image)
    (x1 y1 x2 y2 : Z) (c1 c2 : Color) :
  σ !! draw = Some im → valid_color c1 → valid_color c2 →
  ((x1, y1) ≠ (x2, y2) →
   (px draw x1 y1 c1 ;; px draw x2 y2 c2) σ
   = (px draw x2 y2 c2 ;; px draw x1 y1 c1) σ) ∧
  (alpha c2 > 0 →
   (px draw x1 y1 c1 ;; px draw x1 y1 c2) σ = px draw x1 y1 c2 σ) ∧
  (alpha c2 ≤ 0 →
   (px draw x1 y1 c1 ;; px draw x1 y1 c2) σ = px draw x1 y1 c1 σ).
Proof.
  intros Hd _ _.
  assert (d_lt : (draw < length σ)%nat) by by eapply lookup_lt_Some.
  assert (∀ xa ya ca xb yb cb,
    (px draw xa ya ca ;; px draw xb yb cb) σ
    = Some (tt, <[draw := px_image (px_image im (xa, ya, ca)) (xb, yb, cb)]> σ))
    as Hseq.
  { intros. rewrite bind_run, (px_run draw σ im) by done.
    rewrite (px_run draw _ (px_image im (xa, ya, ca)))
      by by apply list_lookup_insert_eq.
    by rewrite list_insert_insert_eq. }
  split_and!.
  - intros Hne. rewrite !Hseq. by rewrite px_image_px_image_other.
  - intros Ha. rewrite Hseq, (px_run draw σ im) by done.
    by rewrite px_image_px_image_same.
  - intros Ha. rewrite Hseq, (px_run draw σ im) by done.
    do 3 f_equal. simpl.
    replace (alpha c2 >? 0) with false; [by rewrite andb_false_r|].
    symmetry. rewrite Z.gtb_ltb. apply Z.ltb_ge. lia.
Qed.

(** An instance: eye white, then pupil, on a blank frame. *)
Lemma px_last_write_wins_witness :
  ((30, 29) ≠ (30, 30) →
   (px 0%nat 30 29 EYE_WHITE ;; px 0%nat 30 30 EYE_PUPIL)
     [blank 64 64 TRANSPARENT]
   = (px 0%nat 30 30 EYE_PUPIL ;; px 0%nat 30 29 EYE_WHITE)
       [blank 64 64 TRANSPARENT]) ∧
  (alpha EYE_PUPIL > 0 →
   (px 0%nat 30 29 EYE_WHITE ;; px 0%nat 30 29 EYE_PUPIL)
     [blank 64 64 TRANSPARENT]
   = px 0%nat 30 29 EYE_PUPIL [blank 64 64 TRANSPARENT]) ∧
  (alpha EYE_PUPIL ≤ 0 →
   (px 0%nat 30 29 EYE_WHITE ;; px 0%nat 30 29 EYE_PUPIL)
     [blank 64 64 TRANSPARENT]
   = px 0%nat 30 29 EYE_WHITE [blank 64 64 TRANSPARENT]).
Proof.
  apply (px_last_write_wins [blank 64 64 TRANSPARENT] 0%nat
           (blank 64 64 TRANSPARENT) 30 29 30 30 EYE_WHITE EYE_PUPIL).
  - reflexivity.
  - unfold valid_color, EYE_WHITE. lia.
  - unfold valid_color, EYE_PUPIL. lia.
Defined.

(** A pixel after writes that all carry one colour of positive alpha. *)
Lemma getpixel_apply_uniform_miss ws c im X Y :
  Forall (λ w : Write, w.2 = c) ws →
  ¬ ((X, Y, c) ∈ ws ∧ in_frame X Y = true) →
  getpixel (apply_writes ws im) X Y = getpixel im X Y.
Proof.
  intros Hws Hnin. apply getpixel_apply_misses.
  apply Forall_forall. intros [[x y] c'] Hin (-> & -> & HF & _).
  apply Hnin. split; [|done].
  rewrite Forall_forall in Hws. specialize (Hws _ Hin). simpl in Hws.
  by subst.
Qed.

Lemma getpixel_apply_uniform_hit ws c im X Y :
  alpha c > 0 → Forall (λ w : Write, w.2 = c) ws →
  (X, Y, c) ∈ ws → in_frame X Y = true →
  getpixel (apply_writes ws im) X Y = (λ _, c) <$> getpixel im X Y.
Proof.
  intros Ha Hws Hin HF. revert im.
  induction Hws as [|[[x y] c'] ws Hc Hws IH]; intros im.
  - by apply elem_of_nil in Hin.
  - simpl in Hc. subst c'. rewrite apply_writes_cons.
    destruct (decide ((X, Y, c) ∈ ws)) as [Hin'|Hnin'].
    + rewrite IH by done. rewrite getpixel_px_image.
      case_decide; [|done]. by destruct (getpixel im X Y).
    + apply elem_of_cons in Hin as [[= -> ->]|Hin]; [|done].
      rewrite (getpixel_apply_uniform_miss ws c) by tauto.
      rewrite getpixel_px_image. rewrite decide_True; [done|].
      split_and!; done.
Qed.

Lemma range_nonpos n : n ≤ 0 → range n = [].
Proof. intros Hn. unfold range. by replace (Z.to_nat n) with 0%nat by lia. Qed.

Lemma rect_writes_empty x y w h c : w ≤ 0 ∨ h ≤ 0 → rect_writes x y w h c = [].
Proof.
  intros Hwh. apply elem_of_nil_inv. intros wr Hwr.
  apply rect_writes_elem in Hwr as (X & Y & _ & [HX HY]). lia.
Qed.

(** Extra X3.  [rect] with a colour of byte channels and positive alpha
    paints exactly the
    half-open rectangle [[x, x+w) x [y, y+h)], cut to the 64x64 frame: a
    pixel of the raster in that area reads as the colour afterwards, every
    other pixel reads as before.  With a width or a height that is zero or
    negative the raster is left as it was. *)
Theorem rect_paints_rectangle (σ : Heap) (draw : ref) (im : Image)
    (x y w h : Z) (color : Color) :
  σ !! draw = Some im → valid_color color → alpha color > 0 →
  ∃ im',
    rect draw x y w h color σ = Some (tt, <[draw := im']> σ) ∧
    (∀ X Y, in_rect x y w h X Y → 0 ≤ X < 64 → 0 ≤ Y < 64 →
       getpixel im' X Y = (λ _, color) <$> getpixel im X Y) ∧
    (∀ X Y, ¬ (in_rect x y w h X Y ∧ 0 ≤ X < 64 ∧ 0 ≤ Y < 64) →
       getpixel im' X Y = getpixel im X Y) ∧
    (w ≤ 0 ∨ h ≤ 0 → im' = im).
Proof.
  intros Hd _ Ha. exists (apply_writes (rect_writes x y w h color) im).
  split_and!.
  - by rewrite (Draws_rect x y w h color draw σ im Hd).
  - intros X Y Hin HX HY.
    apply getpixel_apply_uniform_hit; [done|apply rect_writes_color| |].
    + apply rect_writes_elem. by exists X, Y.
    + apply in_frame_spec. lia.
  - intros X Y Hout.
    apply (getpixel_apply_uniform_miss _ color); [apply rect_writes_color|].
    intros [Hin HF%in_frame_spec].
    apply rect_writes_elem in Hin as (X' & Y' & [= <- <-] & Hin).
    apply Hout. done.
  - intros Hwh. by rewrite rect_writes_empty.
Qed.

(** An instance: the desk top on a blank frame. *)
Lemma rect_paints_rectangle_witness :
  ∃ im',
    rect 0%nat 8 44 48 3 DESK_TOP [blank 64 64 TRANSPARENT]
      = Some (tt, <[0%nat := im']> [blank 64 64 TRANSPARENT]) ∧
    (∀ X Y, in_rect 8 44 48 3 X Y → 0 ≤ X < 64 → 0 ≤ Y < 64 →
       getpixel im' X Y
       = (λ _, DESK_TOP) <$> getpixel (blank 64 64 TRANSPARENT) X Y) ∧
    (∀ X Y, ¬ (in_rect 8 44 48 3 X Y ∧ 0 ≤ X < 64 ∧ 0 ≤ Y < 64) →
       getpixel im' X Y = getpixel (blank 64 64 TRANSPARENT) X Y) ∧
    (48 ≤ 0 ∨ 3 ≤ 0 → im' = blank 64 64 TRANSPARENT).
Proof.
  apply (rect_paints_rectangle [blank 64 64 TRANSPARENT] 0%nat
           (blank 64 64 TRANSPARENT) 8 44 48 3 DESK_TOP);
    [reflexivity|unfold valid_color, DESK_TOP; lia|reflexivity].
Defined.

(** ** Modes and their edge cases *)

(** Extra X4.  [draw_monitors] knows two special flicker values: 2 turns
    the chart content off and 1 drops every third chart point; with any
    other value it draws as with the default 0. *)
Theorem draw_monitors_other_flicker (draw : ref) (lg rg : Color) (flicker : Z)
    (σ : Heap) :
  flicker ≠ 1 → flicker ≠ 2 →
  draw_monitors draw lg rg flicker σ = draw_monitors draw lg rg 0 σ.
Proof.
  intros H1 H2. unfold draw_monitors.
  rewrite (proj2 (Z.eqb_neq flicker 2)) by done.
  rewrite (proj2 (Z.eqb_neq flicker 1)) by done.
  reflexivity.
Qed.

(** An instance: flicker 7 on a blank frame. *)
Lemma draw_monitors_other_flicker_witness :
  draw_monitors 0%nat MONITOR_BLUE MONITOR_GREEN 7 [blank 64 64 TRANSPARENT]
  = draw_monitors 0%nat MONITOR_BLUE MONITOR_GREEN 0 [blank 64 64 TRANSPARENT].
Proof.
  apply (draw_monitors_other_flicker 0%nat MONITOR_BLUE MONITOR_GREEN 7
           [blank 64 64 TRANSPARENT]); lia.
Defined.

(** Extra X5.  In [draw_head] a blink overrides the eye mode: with
    [blink=True] the closed eyes are drawn whatever [eyes] and [look_dir]
    are, wide eyes included. *)
Theorem draw_head_blink_closes (draw : ref) (y_off : Z) (eyes : string)
    (look_dir : Z) (mouth : string) (σ : Heap) :
  draw_head draw y_off eyes true look_dir mouth σ
  = draw_head draw y_off "closed" false 0 mouth σ.
Proof.
  unfold draw_head. rewrite andb_false_r, orb_true_r. reflexivity.
Qed.

(** Extra X6.  The gaze only moves open eyes: unless the eyes are [open]
    and there is no blink, [draw_head] does not depend on [look_dir]. *)
Theorem draw_head_gaze_only_open (draw : ref) (y_off : Z) (eyes : string)
    (blink : bool) (look_dir look_dir' : Z) (mouth : string) (σ : Heap) :
  eyes ≠ "open"%string ∨ blink = true →
  draw_head draw y_off eyes blink look_dir mouth σ
  = draw_head draw y_off eyes blink look_dir' mouth σ.
Proof.
  intros Hmode. unfold draw_head.
  assert (String.eqb eyes "open" && negb blink = false) as ->; [|done].
  destruct Hmode as [Hne| ->]; [|apply andb_false_r].
  apply String.eqb_neq in Hne. by rewrite Hne.
Qed.

(** An instance: wide eyes looking left or right. *)
Lemma draw_head_gaze_only_open_witness :
  draw_head 0%nat 0 "wide" false (-1) "flat" [blank 64 64 TRANSPARENT]
  = draw_head 0%nat 0 "wide" false 1 "flat" [blank 64 64 TRANSPARENT].
Proof.
  apply (draw_head_gaze_only_open 0%nat 0 "wide" false (-1) 1 "flat"
           [blank 64 64 TRANSPARENT]).
  left. discriminate.
Defined.

Lemma seq_ret_tt (m : M unit) (σ : Heap) : (m ;; mret tt) σ = m σ.
Proof.
  rewrite bind_run. destruct (m σ) as [[[] σ']|]; done.
Qed.

Lemma seq_ext (m k k' : M unit) (σ : Heap) :
  (∀ σ', k σ' = k' σ') → (m ;; k) σ = (m ;; k') σ.
Proof.
  intros Hk. rewrite !bind_run. destruct (m σ) as [[[] σ']|]; auto.
Qed.

Lemma eqb_not_elem (s : string) (l : list string) (t : string) :
  s ∉ l → t ∈ l → String.eqb s t = false.
Proof.
  intros Hs Ht. apply String.eqb_neq. intros ->. done.
Qed.

Ltac solve_not_elem :=
  first [ done | repeat first [ apply list_elem_of_here | apply list_elem_of_further ] ].

(** Extra X7.  An arm pose that [draw_body_sitting] does not know is not an
    error: the torso (the hoodie block, its two side strips and its middle
    line) is drawn and no arms. *)
Theorem draw_body_unknown_arms (draw : ref) (y_off : Z) (arms : string)
    (σ : Heap) :
  arms ∉ known_arms →
  draw_body_sitting draw y_off arms σ
  = (rect draw 27 (36 + y_off) 10 8 HOODIE ;;
     rect draw 26 (37 + y_off) 1 6 HOODIE_DARK ;;
     rect draw 37 (37 + y_off) 1 6 HOODIE_DARK ;;
     rect draw 32 (37 + y_off) 1 7 HOODIE_DARK) σ.
Proof.
  intros Harms. unfold draw_body_sitting. cbv zeta.
  rewrite !(eqb_not_elem arms known_arms)
    by solve_not_elem.
  do 3 (apply seq_ext; intros ?).
  apply seq_ret_tt.
Qed.

(** An instance: the pose "wave". *)
Lemma draw_body_unknown_arms_witness :
  draw_body_sitting 0%nat 0 "wave" [blank 64 64 TRANSPARENT]
  = (rect 0%nat 27 (36 + 0) 10 8 HOODIE ;;
     rect 0%nat 26 (37 + 0) 1 6 HOODIE_DARK ;;
     rect 0%nat 37 (37 + 0) 1 6 HOODIE_DARK ;;
     rect 0%nat 32 (37 + 0) 1 7 HOODIE_DARK) [blank 64 64 TRANSPARENT].
Proof.
  apply (draw_body_unknown_arms 0%nat 0 "wave" [blank 64 64 TRANSPARENT]).
  unfold known_arms. rewrite !not_elem_of_cons.
  split_and!; [discriminate..|apply not_elem_of_nil].
Defined.

(** Extra X8.  A mouth that [draw_head] does not draw ([smile], [open] and
    [flat] are drawn) is not an error either: the head is drawn as with
    [mouth='none'], without a mouth. *)
Theorem draw_head_unknown_mouth (draw : ref) (y_off : Z) (eyes : string)
    (blink : bool) (look_dir : Z) (mouth : string) (σ : Heap) :
  mouth ∉ drawn_mouths →
  draw_head draw y_off eyes blink look_dir mouth σ
  = draw_head draw y_off eyes blink look_dir "none" σ.
Proof.
  intros Hmouth. unfold draw_head. cbv zeta.
  rewrite !(eqb_not_elem mouth drawn_mouths)
    by solve_not_elem.
  change (String.eqb "none" "smile") with false.
  change (String.eqb "none" "open") with false.
  change (String.eqb "none" "flat") with false.
  by destruct (String.eqb mouth "none").
Qed.

(** An instance: the mouth "grin". *)
Lemma draw_head_unknown_mouth_witness :
  draw_head 0%nat 0 "open" false 0 "grin" [blank 64 64 TRANSPARENT]
  = draw_head 0%nat 0 "open" false 0 "none" [blank 64 64 TRANSPARENT].
Proof.
  apply (draw_head_unknown_mouth 0%nat 0 "open" false 0 "grin"
           [blank 64 64 TRANSPARENT]).
  unfold drawn_mouths. rewrite !not_elem_of_cons.
  split_and!; [discriminate..|apply not_elem_of_nil].
Defined.

(** ** The overlays *)

Lemma for_ext {A} (l : list A) (f g : A → M unit) (σ : Heap) :
  (∀ a σ', f a σ' = g a σ') → for_ l f σ = for_ l g σ.
Proof.
  intros Hfg. revert σ. induction l as [|a l IH]; intros σ; [done|].
  simpl. rewrite !bind_run, Hfg. destruct (g a σ) as [[[] σ']|]; auto.
Qed.

Lemma add_mod_congr (a b i : Z) :
  a `mod` 6 = b `mod` 6 → (a + i) `mod` 6 = (b + i) `mod` 6.
Proof.
  intros Hab. rewrite (Z.add_mod a), (Z.add_mod b) by lia. by rewrite Hab.
Qed.

Lemma draw_zzz_mod (d : ref) (frame frame' : Z) (σ : Heap) :
  frame `mod` 6 = frame' `mod` 6 → draw_zzz d frame σ = draw_zzz d frame' σ.
Proof.
  intros Hmod. unfold draw_zzz. cbv zeta.
  apply for_ext; intros [i [bx by_]] σ'.
  by rewrite (add_mod_congr frame frame').
Qed.

Lemma draw_sparkle_mod (d : ref) (frame frame' : Z) (σ : Heap) :
  frame `mod` 6 = frame' `mod` 6 →
  draw_sparkle d frame σ = draw_sparkle d frame' σ.
Proof.
  intros Hmod. unfold draw_sparkle. cbv zeta.
  apply for_ext; intros [i [bx by_]] σ'.
  by rewrite (add_mod_congr frame frame').
Qed.

Lemma draw_sweat_mod (d : ref) (frame frame' : Z) (σ : Heap) :
  frame `mod` 6 = frame' `mod` 6 → draw_sweat d frame σ = draw_sweat d frame' σ.
Proof.
  intros Hmod. unfold draw_sweat. cbv zeta.
  apply for_ext; intros [i [bx by_]] σ'.
  by rewrite (add_mod_congr frame frame').
Qed.

(** Extra X9.  The three overlays loop with period 6: they read the frame
    index only through [(frame + k) % 6], so two frame indices that are
    congruent modulo 6 (negative ones included) give the same drawing. *)
Theorem overlays_period_6 (draw : ref) (frame frame' : Z) (σ : Heap) :
  frame `mod` 6 = frame' `mod` 6 →
  draw_zzz draw frame σ = draw_zzz draw frame' σ ∧
  draw_sparkle draw frame σ = draw_sparkle draw frame' σ ∧
  draw_sweat draw frame σ = draw_sweat draw frame' σ.
Proof.
  intros Hmod. split_and!.
  - by apply draw_zzz_mod.
  - by apply draw_sparkle_mod.
  - by apply draw_sweat_mod.
Qed.

(** An instance: frame 7 is frame 1, on a blank frame. *)
Lemma overlays_period_6_witness :
  draw_zzz 0%nat 7 [blank 64 64 TRANSPARENT]
    = draw_zzz 0%nat 1 [blank 64 64 TRANSPARENT] ∧
  draw_sparkle 0%nat 7 [blank 64 64 TRANSPARENT]
    = draw_sparkle 0%nat 1 [blank 64 64 TRANSPARENT] ∧
  draw_sweat 0%nat 7 [blank 64 64 TRANSPARENT]
    = draw_sweat 0%nat 1 [blank 64 64 TRANSPARENT].
Proof.
  apply (overlays_period_6 0%nat 7 1 [blank 64 64 TRANSPARENT]). reflexivity.
Defined.

(** ** Routines that never raise *)

Lemma Draws_ext (m m' : ref → M unit) ows :
  Draws m ows → (∀ d σ, m' d σ = m d σ) → Draws m' ows.
Proof. intros Hm Heq d σ im Hd. rewrite Heq. by apply Hm. Qed.

Lemma draw_zzz_total (frame : Z) :
  ∃ ws, Draws (λ d, draw_zzz d frame) (Some ws).
Proof.
  assert (∀ f, 0 ≤ f ≤ 5 → ∃ ws, Draws (λ d, draw_zzz d f) (Some ws)) as Hf.
  { intros f Hf. cases6 f; eexists; (eapply Draws_eq; [draws|reflexivity]). }
  destruct (Hf (frame `mod` 6)) as [ws Hws];
    [pose proof (Z.mod_pos_bound frame 6); lia|].
  exists ws. eapply Draws_ext; [apply Hws|].
  intros d σ. apply draw_zzz_mod. by rewrite Z.mod_mod.
Qed.

Lemma draw_sparkle_total (frame : Z) :
  ∃ ws, Draws (λ d, draw_sparkle d frame) (Some ws).
Proof.
  assert (∀ f, 0 ≤ f ≤ 5 → ∃ ws, Draws (λ d, draw_sparkle d f) (Some ws)) as Hf.
  { intros f Hf. cases6 f; eexists; (eapply Draws_eq; [draws|reflexivity]). }
  destruct (Hf (frame `mod` 6)) as [ws Hws];
    [pose proof (Z.mod_pos_bound frame 6); lia|].
  exists ws. eapply Draws_ext; [apply Hws|].
  intros d σ. apply draw_sparkle_mod. by rewrite Z.mod_mod.
Qed.

Lemma draw_sweat_total (frame : Z) :
  ∃ ws, Draws (λ d, draw_sweat d frame) (Some ws).
Proof.
  assert (∀ f, 0 ≤ f ≤ 5 → ∃ ws, Draws (λ d, draw_sweat d f) (Some ws)) as Hf.
  { intros f Hf. cases6 f; eexists; (eapply Draws_eq; [draws|reflexivity]). }
  destruct (Hf (frame `mod` 6)) as [ws Hws];
    [pose proof (Z.mod_pos_bound frame 6); lia|].
  exists ws. eapply Draws_ext; [apply Hws|].
  intros d σ. apply draw_sweat_mod. by rewrite Z.mod_mod.
Qed.

Lemma draw_monitors_total (lg rg : Color) (flicker : Z) :
  ∃ ws, Draws (λ d, draw_monitors d lg rg flicker) (Some ws).
Proof.
  destruct (decide (flicker = 1)) as [->|H1];
    [eexists; apply draw_monitors_flicker|].
  destruct (decide (flicker = 2)) as [->|H2];
    [eexists; apply draw_monitors_off|].
  eexists. eapply Draws_ext; [apply (draw_monitors_normal lg rg)|].
  intros d σ. unfold draw_monitors.
  rewrite (proj2 (Z.eqb_neq flicker 2)) by done.
  rewrite (proj2 (Z.eqb_neq flicker 1)) by done.
  reflexivity.
Qed.

(** ** When [draw_frame] raises *)

(** Derives the writes of a routine whose calls of the monitors and of the
    overlays are covered by hypotheses. *)
Ltac draws_calls :=
  unfold draw_desk, draw_chair, draw_body_sitting, draw_head;
  cbv zeta;
  repeat first
    [ apply Draws_ret
    | apply Draws_px
    | apply Draws_rect
    | eassumption
    | eapply Draws_index; intros ?
    | eapply Draws_seq
    | eapply Draws_if
    | eapply Draws_for; intros ? ].

Lemma subscript_out_of_range {A} (l : list A) (i : Z) :
  ¬ (- Z.of_nat (length l) ≤ i < Z.of_nat (length l)) → subscript l i = None.
Proof.
  intros Hout. unfold subscript. cbv zeta.
  destruct (i <? 0) eqn:Hneg.
  - apply Z.ltb_lt in Hneg.
    destruct ((0 <=? i + Z.of_nat (length l)) && (i + Z.of_nat (length l) <? Z.of_nat (length l))) eqn:E; [|done].
    apply andb_true_iff in E as [E1%Z.leb_le E2%Z.ltb_lt]. lia.
  - apply Z.ltb_ge in Hneg.
    destruct ((0 <=? i) && (i <? Z.of_nat (length l))) eqn:E; [|done].
    apply andb_true_iff in E as [E1%Z.leb_le E2%Z.ltb_lt]. lia.
Qed.

Lemma seq_writes_is_Some o1 o2 :
  is_Some o1 → is_Some o2 → is_Some (seq_writes o1 o2).
Proof. intros [ws1 ->] [ws2 ->]. by eexists. Qed.

Lemma if_is_Some {A} (b : bool) (o1 o2 : option A) :
  is_Some o1 → is_Some o2 → is_Some (if b then o1 else o2).
Proof. by destruct b. Qed.

Lemma for_writes_is_Some {A} (l : list A) f :
  (∀ a, is_Some (f a)) → is_Some (for_writes l f).
Proof.
  intros Hf. induction l as [|a l IH]; simpl; [by eexists|].
  by apply seq_writes_is_Some.
Qed.

Ltac solve_is_Some :=
  repeat first
    [ apply seq_writes_is_Some
    | apply if_is_Some
    | apply for_writes_is_Some; intros ?
    | by eexists ].

Lemma draw_frame_row0_raises (col : Z) (σ : Heap) :
  ¬ (-6 ≤ col ≤ 5) → draw_frame 0 col σ = None.
Proof.
  intros Hcol.
  pose proof (draw_monitors_normal MONITOR_BLUE MONITOR_GREEN) as Hm.
  unfold draw_frame. cbv zeta.
  erewrite alloc_draw; [|draws_calls].
  rewrite !(subscript_out_of_range _ col) by (simpl; lia).
  reflexivity.
Qed.

Lemma draw_frame_row1_raises (col : Z) (σ : Heap) :
  ¬ (-6 ≤ col ≤ 5) → draw_frame 1 col σ = None.
Proof.
  intros Hcol.
  destruct (draw_monitors_total MONITOR_BLUE MONITOR_GREEN
              (if elem col [2; 5] then 1 else 0)) as [wm Hm].
  unfold draw_frame. cbv zeta.
  erewrite alloc_draw; [|draws_calls].
  rewrite !(subscript_out_of_range _ col) by (simpl; lia).
  reflexivity.
Qed.

Lemma draw_frame_row3_raises (col : Z) (σ : Heap) :
  ¬ (-6 ≤ col ≤ 5) → draw_frame 3 col σ = None.
Proof.
  intros Hcol.
  pose proof (draw_monitors_normal MONITOR_GREEN MONITOR_GREEN) as Hm.
  destruct (draw_sparkle_total col) as [wo Ho].
  unfold draw_frame. cbv zeta.
  erewrite alloc_draw; [|draws_calls].
  rewrite !(subscript_out_of_range _ col) by (simpl; lia).
  reflexivity.
Qed.

Lemma draw_frame_row4_raises (col : Z) (σ : Heap) :
  ¬ (-6 ≤ col ≤ 5) → draw_frame 4 col σ = None.
Proof.
  intros Hcol.
  destruct (draw_monitors_total MONITOR_RED MONITOR_RED
              (if elem col [1; 3; 5] then 1 else 0)) as [wm Hm].
  destruct (draw_sweat_total col) as [wo Ho].
  unfold draw_frame. cbv zeta.
  erewrite alloc_draw; [|draws_calls].
  rewrite !(subscript_out_of_range _ col) by (simpl; lia).
  reflexivity.
Qed.

Lemma draw_frame_row2_returns (col : Z) (σ : Heap) :
  is_Some (draw_frame 2 col σ).
Proof.
  pose proof (draw_monitors_off MONITOR_BLUE MONITOR_GREEN) as Hm.
  destruct (draw_zzz_total col) as [wo Ho].
  unfold draw_frame. cbv zeta.
  erewrite alloc_draw; [|draws_calls].
  apply fmap_is_Some. solve_is_Some.
Qed.

Lemma draw_frame_row5_returns (col : Z) (σ : Heap) :
  is_Some (draw_frame 5 col σ).
Proof.
  pose proof (draw_monitors_off MONITOR_BLUE MONITOR_GREEN) as Hoff.
  pose proof (draw_monitors_normal MONITOR_BLUE MONITOR_GREEN) as Hon.
  unfold draw_frame. cbv zeta.
  erewrite alloc_draw; [|draws_calls].
  apply fmap_is_Some. solve_is_Some.
Qed.

Lemma draw_frame_other_row_returns (row col : Z) (σ : Heap) :
  ¬ (0 ≤ row ≤ 5) → is_Some (draw_frame row col σ).
Proof.
  intros Hrow. unfold draw_frame.
  rewrite !(proj2 (Z.eqb_neq row _)) by lia. by eexists.
Qed.

Lemma draw_frame_table_rows_return (row col : Z) (σ : Heap) :
  row ∈ table_rows → -6 ≤ col ≤ 5 → is_Some (draw_frame row col σ).
Proof.
  intros Hrow Hcol.
  assert (forallb (λ r, forallb (λ c, bool_decide (is_Some (render r c)))
                          table_cols) table_rows = true) as Hall
    by (vm_compute; reflexivity).
  rewrite forallb_forall in Hall.
  specialize (Hall row (proj1 (list_elem_of_In _ _) Hrow)).
  rewrite forallb_forall in Hall.
  assert (col ∈ table_cols) as Hin.
  { unfold table_cols. apply list_elem_of_fmap. exists (col + 6).
    split; [lia|]. apply range_elem. lia. }
  specialize (Hall col (proj1 (list_elem_of_In _ _) Hin)).
  apply bool_decide_eq_true_1 in Hall as [im Him].
  rewrite draw_frame_run, Him. by eexists.
Qed.
(** Extra X10.  [draw_frame] raises (an [IndexError]) exactly when the row
    is one of those that subscript a six-entry table with the column (idle,
    working, celebrating, worried: rows 0, 1, 3, 4) and the column is
    outside [-6, 5]; a negative column down to -6 counts from the end of
    the tables, as Python subscripts do.  The sleeping and warm-up rows
    (2 and 5) and the rows outside 0..5 return a frame for every column. *)
Theorem draw_frame_raises_iff (row col : Z) (σ : Heap) :
  draw_frame row col σ = None ↔
  (row = 0 ∨ row = 1 ∨ row = 3 ∨ row = 4) ∧ (col < -6 ∨ 5 < col).
Proof.
  split.
  - intros Hnone.
    assert (¬ is_Some (draw_frame row col σ)) as Hno
      by (rewrite Hnone; by intros [? ?]).
    destruct (decide (0 ≤ row ≤ 5)) as [Hrow|Hrow];
      [|destruct Hno; by apply draw_frame_other_row_returns].
    destruct (decide (row = 2)) as [->|H2];
      [destruct Hno; apply draw_frame_row2_returns|].
    destruct (decide (row = 5)) as [->|H5];
      [destruct Hno; apply draw_frame_row5_returns|].
    split; [lia|].
    destruct (decide (-6 ≤ col ≤ 5)) as [Hcol|Hcol]; [|lia].
    destruct Hno. apply draw_frame_table_rows_return; [|done].
    unfold table_rows. rewrite !elem_of_cons. lia.
  - intros [Hrow Hcol].
    destruct Hrow as [->|[->|[->| ->]]].
    + apply draw_frame_row0_raises. lia.
    + apply draw_frame_row1_raises. lia.
    + apply draw_frame_row3_raises. lia.
    + apply draw_frame_row4_raises. lia.
Qed.

(** ** An invariant of the pixels *)

Lemma apply_writes_clear_or_visible ws im :
  (∀ x y c, getpixel im x y = Some c → clear_or_visible c) →
  ∀ x y c, getpixel (apply_writes ws im) x y = Some c → clear_or_visible c.
Proof.
  revert im. induction ws as [|[[wx wy] wc] ws IH]; intros im Him; [done|].
  rewrite apply_writes_cons. apply IH. intros x y c.
  rewrite getpixel_px_image. case_decide as Hw; [|apply Him].
  destruct (getpixel im x y); [|done]. intros [= <-]. right. tauto.
Qed.

Lemma blank_clear_or_visible w h x y c :
  getpixel (blank w h TRANSPARENT) x y = Some c → clear_or_visible c.
Proof.
  unfold getpixel. destruct (in_image _ x y) eqn:Hin; [|done].
  apply in_image_spec in Hin. simpl in Hin.
  intros Hc. left.
  pose proof (getpixel_blank w h TRANSPARENT x y (proj1 Hin) (proj2 Hin)) as Hb.
  unfold getpixel in Hb.
  rewrite (proj2 (in_image_spec (blank w h TRANSPARENT) x y)) in Hb by done.
  congruence.
Qed.

(** Extra X11.  Whatever the row and the column, a frame that [draw_frame]
    returns has no pixel of alpha 0 other than the untouched transparent
    background: every pixel is [(0, 0, 0, 0)] or has a positive alpha,
    because [px] never stores a colour of alpha 0. *)
Theorem draw_frame_pixels_clear_or_visible (row col : Z) (σ σ' : Heap)
    (r : ref) :
  draw_frame row col σ = Some (r, σ') →
  ∃ im, σ' !! r = Some im ∧
    ∀ x y c, getpixel im x y = Some c → c = TRANSPARENT ∨ alpha c > 0.
Proof.
  destruct (draw_frame_draws row col) as [ows Hrun]. rewrite Hrun.
  destruct ows as [ws|]; [|done]. simpl. intros [= <- <-].
  exists (apply_writes ws (blank W H TRANSPARENT)). split.
  - rewrite lookup_app_r by lia. by rewrite Nat.sub_diag.
  - apply apply_writes_clear_or_visible. intros x y c.
    apply blank_clear_or_visible.
Qed.

(** An instance: the first worried frame on the empty store. *)
Lemma draw_frame_pixels_clear_or_visible_witness :
  ∃ im, ([] ++ [default (blank W H TRANSPARENT) (render 4 0)]) !! 0%nat = Some im ∧
    ∀ x y c, getpixel im x y = Some c → c = TRANSPARENT ∨ alpha c > 0.
Proof.
  apply (draw_frame_pixels_clear_or_visible 4 0 []
           ([] ++ [default (blank W H TRANSPARENT) (render 4 0)]) 0%nat).
  vm_compute. reflexivity.
Defined.

(** ** Where the parts draw *)

Lemma within_rect (B : Z → Z → Prop) x y w h c :
  (∀ X Y, in_rect x y w h X Y → B X Y) →
  writes_within B (Some (rect_writes x y w h c)).
Proof.
  intros HB ws [= <-]. apply Forall_forall. intros wr Hwr.
  apply rect_writes_elem in Hwr as (X & Y & -> & Hin). by apply HB.
Qed.

Lemma within_px (B : Z → Z → Prop) x y c :
  B x y → writes_within B (Some [(x, y, c)]).
Proof. intros HB ws [= <-]. by apply Forall_singleton. Qed.

Lemma within_Some (B : Z → Z → Prop) ws :
  Forall (λ w : Write, B w.1.1 w.1.2) ws → writes_within B (Some ws).
Proof. intros Hws ws' Heq. by injection Heq as <-. Qed.

Lemma within_nil (B : Z → Z → Prop) : writes_within B (Some []).
Proof. intros ws [= <-]. apply Forall_nil_2. Qed.

Lemma within_seq (B : Z → Z → Prop) o1 o2 :
  writes_within B o1 → writes_within B o2 → writes_within B (seq_writes o1 o2).
Proof.
  intros H1 H2 ws. destruct o1 as [ws1|], o2 as [ws2|]; try done.
  intros [= <-]. apply Forall_app. split; [by apply H1|by apply H2].
Qed.

Lemma within_if (B : Z → Z → Prop) (b : bool) o1 o2 :
  writes_within B o1 → writes_within B o2 →
  writes_within B (if b then o1 else o2).
Proof. by destruct b. Qed.

Lemma within_app (B : Z → Z → Prop) ws1 ws2 :
  writes_within B (Some ws1) → writes_within B (Some ws2) →
  writes_within B (Some (ws1 ++ ws2)).
Proof.
  intros H1 H2 ws [= <-]. apply Forall_app. split; [by apply H1|by apply H2].
Qed.

(** A routine whose writes stay within [B] returns and leaves every pixel
    outside [B] as it was. *)
Lemma Draws_within (B : Z → Z → Prop) m ows (d : ref) (σ : Heap) (im : Image) :
  Draws m ows → is_Some ows → writes_within B ows → σ !! d = Some im →
  ∃ im', m d σ = Some (tt, <[d := im']> σ) ∧
    ∀ X Y, ¬ B X Y → getpixel im' X Y = getpixel im X Y.
Proof.
  intros Hm [ws ->] HB Hd. exists (apply_writes ws im). split.
  - by rewrite (Hm d σ im Hd).
  - intros X Y HXY. apply getpixel_apply_misses.
    eapply Forall_impl; [by apply HB|].
    intros [[x y] c] Hw (-> & -> & _). done.
Qed.

Ltac solve_within :=
  repeat first
    [ apply within_seq
    | apply within_if
    | apply within_nil
    | apply within_rect; unfold in_rect; intros ? ? ?; lia
    | apply within_px; lia ].

Lemma draw_desk_within :
  ∃ ows, Draws draw_desk ows ∧ is_Some ows ∧ writes_within desk_box ows.
Proof.
  eexists. split_and!; [draws|solve_is_Some|unfold desk_box; solve_within].
Qed.

Lemma draw_chair_within :
  ∃ ows, Draws draw_chair ows ∧ is_Some ows ∧ writes_within chair_box ows.
Proof.
  eexists. split_and!; [draws|solve_is_Some|unfold chair_box; solve_within].
Qed.

Lemma draw_body_sitting_within (y_off : Z) (arms : string) :
  ∃ ows, Draws (λ d, draw_body_sitting d y_off arms) ows ∧ is_Some ows ∧
         writes_within (body_box y_off) ows.
Proof.
  eexists. split_and!; [draws|solve_is_Some|unfold body_box; solve_within].
Qed.

Lemma draw_head_within (y_off : Z) (eyes : string) (blink : bool)
    (look_dir : Z) (mouth : string) :
  -4 ≤ look_dir ≤ 4 →
  ∃ ows, Draws (λ d, draw_head d y_off eyes blink look_dir mouth) ows ∧
         is_Some ows ∧ writes_within (head_box y_off) ows.
Proof.
  intros Hlook.
  eexists. split_and!; [draws|solve_is_Some|unfold head_box; solve_within].
Qed.

Lemma monitors_writes_within (lg rg : Color) (skip : list Z) :
  skip = [] ∨ skip = [0; 3; 6; 9] →
  Forall (λ w : Write, monitors_box w.1.1 w.1.2)
    (monitor_bodies ++ line_chart lg skip ++ candles rg).
Proof.
  intros [-> | ->]; refine (bool_decide_eq_true_1 _ _); vm_compute; reflexivity.
Qed.

Lemma draw_monitors_within (lg rg : Color) (flicker : Z) :
  ∃ ows, Draws (λ d, draw_monitors d lg rg flicker) ows ∧ is_Some ows ∧
         writes_within monitors_box ows.
Proof.
  destruct (decide (flicker = 1)) as [->|H1].
  { eexists. split_and!; [apply draw_monitors_flicker|by eexists|].
    apply within_Some, monitors_writes_within. by right. }
  destruct (decide (flicker = 2)) as [->|H2].
  { eexists. split_and!; [apply draw_monitors_off|by eexists|].
    apply within_Some.
    pose proof (monitors_writes_within lg rg [] (or_introl eq_refl)) as Hall.
    by apply Forall_app in Hall as [Hall _]. }
  eexists. split_and!; [|by eexists|].
  - eapply Draws_ext; [apply (draw_monitors_normal lg rg)|].
    intros d σ. unfold draw_monitors.
    rewrite (proj2 (Z.eqb_neq flicker 2)) by done.
    rewrite (proj2 (Z.eqb_neq flicker 1)) by done.
    reflexivity.
  - apply within_Some, monitors_writes_within. by left.
Qed.

(** Extra X12.  The scene parts draw in fixed places.  On any raster,
    [draw_desk] returns and changes no pixel outside [8, 56) x [44, 64),
    [draw_chair] none outside [23, 41) x [28, 42), and [draw_monitors], for
    any glow colours of byte channels and any flicker value, none outside
    [11, 53) x [30, 44). *)
Theorem scene_parts_stay_in_place (σ : Heap) (draw : ref) (im : Image) :
  σ !! draw = Some im →
  (∃ im', draw_desk draw σ = Some (tt, <[draw := im']> σ) ∧
     ∀ X Y, ¬ (8 ≤ X < 56 ∧ 44 ≤ Y < 64) →
       getpixel im' X Y = getpixel im X Y) ∧
  (∃ im', draw_chair draw σ = Some (tt, <[draw := im']> σ) ∧
     ∀ X Y, ¬ (23 ≤ X < 41 ∧ 28 ≤ Y < 42) →
       getpixel im' X Y = getpixel im X Y) ∧
  (∀ lg rg flicker, valid_color lg → valid_color rg →
     ∃ im', draw_monitors draw lg rg flicker σ = Some (tt, <[draw := im']> σ) ∧
       ∀ X Y, ¬ (11 ≤ X < 53 ∧ 30 ≤ Y < 44) →
         getpixel im' X Y = getpixel im X Y).
Proof.
  intros Hd. split_and!.
  - destruct draw_desk_within as (ows & Hm & Hs & HB).
    by apply (Draws_within desk_box draw_desk ows).
  - destruct draw_chair_within as (ows & Hm & Hs & HB).
    by apply (Draws_within chair_box draw_chair ows).
  - intros lg rg flicker _ _.
    destruct (draw_monitors_within lg rg flicker) as (ows & Hm & Hs & HB).
    by apply (Draws_within monitors_box
                (λ d, draw_monitors d lg rg flicker) ows).
Qed.

(** An instance: the three parts on a blank frame. *)
Lemma scene_parts_stay_in_place_witness :
  (∃ im', draw_desk 0%nat [blank 64 64 TRANSPARENT]
            = Some (tt, <[0%nat := im']> [blank 64 64 TRANSPARENT]) ∧
     ∀ X Y, ¬ (8 ≤ X < 56 ∧ 44 ≤ Y < 64) →
       getpixel im' X Y = getpixel (blank 64 64 TRANSPARENT) X Y) ∧
  (∃ im', draw_chair 0%nat [blank 64 64 TRANSPARENT]
            = Some (tt, <[0%nat := im']> [blank 64 64 TRANSPARENT]) ∧
     ∀ X Y, ¬ (23 ≤ X < 41 ∧ 28 ≤ Y < 42) →
       getpixel im' X Y = getpixel (blank 64 64 TRANSPARENT) X Y) ∧
  (∀ lg rg flicker, valid_color lg → valid_color rg →
     ∃ im', draw_monitors 0%nat lg rg flicker [blank 64 64 TRANSPARENT]
              = Some (tt, <[0%nat := im']> [blank 64 64 TRANSPARENT]) ∧
       ∀ X Y, ¬ (11 ≤ X < 53 ∧ 30 ≤ Y < 44) →
         getpixel im' X Y = getpixel (blank 64 64 TRANSPARENT) X Y).
Proof.
  apply (scene_parts_stay_in_place [blank 64 64 TRANSPARENT] 0%nat
           (blank 64 64 TRANSPARENT)).
  reflexivity.
Defined.

(** Extra X13.  The character moves with its vertical offset and stays in
    its box.  For any offset and any arm pose, known or not,
    [draw_body_sitting] returns and changes no pixel outside
    [21, 43) x [30 + y_off, 45 + y_off); for any eyes, blink and mouth and a
    gaze of at most four pixels, [draw_head] returns and changes no pixel
    outside [26, 38) x [24 + y_off, 35 + y_off). *)
Theorem character_parts_stay_in_box (σ : Heap) (draw : ref) (im : Image)
    (y_off : Z) :
  σ !! draw = Some im →
  (∀ arms,
     ∃ im', draw_body_sitting draw y_off arms σ = Some (tt, <[draw := im']> σ) ∧
       ∀ X Y, ¬ (21 ≤ X < 43 ∧ 30 + y_off ≤ Y < 45 + y_off) →
         getpixel im' X Y = getpixel im X Y) ∧
  (∀ eyes blink look_dir mouth, -4 ≤ look_dir ≤ 4 →
     ∃ im', draw_head draw y_off eyes blink look_dir mouth σ
              = Some (tt, <[draw := im']> σ) ∧
       ∀ X Y, ¬ (26 ≤ X < 38 ∧ 24 + y_off ≤ Y < 35 + y_off) →
         getpixel im' X Y = getpixel im X Y).
Proof.
  intros Hd. split.
  - intros arms.
    destruct (draw_body_sitting_within y_off arms) as (ows & Hm & Hs & HB).
    by apply (Draws_within (body_box y_off)
                (λ d, draw_body_sitting d y_off arms) ows).
  - intros eyes blink look_dir mouth Hlook.
    destruct (draw_head_within y_off eyes blink look_dir mouth Hlook)
      as (ows & Hm & Hs & HB).
    by apply (Draws_within (head_box y_off)
                (λ d, draw_head d y_off eyes blink look_dir mouth) ows).
Qed.

(** An instance: offset -2 (the deepest bounce of the celebrating row) on a
    blank frame. *)
Lemma character_parts_stay_in_box_witness :
  (∀ arms,
     ∃ im', draw_body_sitting 0%nat (-2) arms [blank 64 64 TRANSPARENT]
              = Some (tt, <[0%nat := im']> [blank 64 64 TRANSPARENT]) ∧
       ∀ X Y, ¬ (21 ≤ X < 43 ∧ 30 + -2 ≤ Y < 45 + -2) →
         getpixel im' X Y = getpixel (blank 64 64 TRANSPARENT) X Y) ∧
  (∀ eyes blink look_dir mouth, -4 ≤ look_dir ≤ 4 →
     ∃ im', draw_head 0%nat (-2) eyes blink look_dir mouth
              [blank 64 64 TRANSPARENT]
              = Some (tt, <[0%nat := im']> [blank 64 64 TRANSPARENT]) ∧
       ∀ X Y, ¬ (26 ≤ X < 38 ∧ 24 + -2 ≤ Y < 35 + -2) →
         getpixel im' X Y = getpixel (blank 64 64 TRANSPARENT) X Y).
Proof.
  apply (character_parts_stay_in_box [blank 64 64 TRANSPARENT] 0%nat
           (blank 64 64 TRANSPARENT) (-2)).
  reflexivity.
Defined.

(** ** What the assembler does to the store *)

Lemma row_loop_store (s : ref) (σ0 : Heap) (row : Z) (cols : list Z) :
  (s < length σ0)%nat → (∀ c, c ∈ cols → is_Some (render row c)) →
  ∀ S extra,
    for_ cols (λ col, frame ← draw_frame row col;
                      paste s frame (col * W, row * H))
      (<[s := S]> σ0 ++ extra)
    = Some (tt, <[s := foldl paste_cell S (grid [row] cols)]> σ0
                ++ (extra ++ frames_of (grid [row] cols))).
Proof.
  intros Hs. unfold grid, frames_of. simpl. rewrite app_nil_r.
  induction cols as [|c cols IH]; intros Hcols S extra.
  - simpl. by rewrite app_nil_r.
  - simpl. unfold mbind at 1, M_bind at 1.
    rewrite cell_step; [|done|apply Hcols; left].
    rewrite IH by (intros c' Hc'; apply Hcols; by right).
    by rewrite <- app_assoc.
Qed.

Lemma grid_loop_store (s : ref) (σ0 : Heap) (rows cols : list Z) :
  (s < length σ0)%nat →
  (∀ r c, r ∈ rows → c ∈ cols → is_Some (render r c)) →
  ∀ S extra,
    for_ rows (λ row,
      for_ cols (λ col, frame ← draw_frame row col;
                        paste s frame (col * W, row * H)))
      (<[s := S]> σ0 ++ extra)
    = Some (tt, <[s := foldl paste_cell S (grid rows cols)]> σ0
                ++ (extra ++ frames_of (grid rows cols))).
Proof.
  intros Hs.
  induction rows as [|r rows IH]; intros Hcells S extra.
  - simpl. by rewrite app_nil_r.
  - simpl. unfold mbind at 1, M_bind at 1.
    rewrite row_loop_store; [|done|intros c Hc; apply Hcells; [left|done]].
    rewrite IH by (intros r' c Hr' Hc; apply Hcells; [by right|done]).
    do 3 f_equal.
    + unfold grid. simpl. by rewrite app_nil_r, foldl_app.
    + unfold grid, frames_of. simpl. rewrite app_nil_r, fmap_app.
      by rewrite <- app_assoc.
Qed.

Lemma frames_of_grid_lookup (r c : Z) :
  0 ≤ r ≤ 5 → 0 ≤ c ≤ 5 →
  frames_of (grid (range ROWS) (range COLS)) !! Z.to_nat (6 * r + c)
  = Some (frame_of r c).
Proof.
  intros Hr Hc. cases6 r; cases6 c; reflexivity.
Qed.

(** Extra X14.  [generate_sprite_sheet] only allocates: the rasters that
    were in the store are all as they were, and 37 rasters are added after
    them, the sheet first and then the 36 frames in the order of the loops
    (row by row), each one the raster that [draw_frame] returns for its
    cell. *)
Theorem generate_sprite_sheet_store (σ : Heap) :
  ∃ σ' : Heap,
    generate_sprite_sheet σ = Some (length σ, σ') ∧
    length σ' = (length σ + 37)%nat ∧
    (∀ i, (i < length σ)%nat → σ' !! i = σ !! i) ∧
    ∀ r c, 0 ≤ r ≤ 5 → 0 ≤ c ≤ 5 →
      is_Some (render r c) ∧
      σ' !! (length σ + 1 + Z.to_nat (6 * r + c))%nat = render r c.
Proof.
  set (S0 := blank SHEET_W SHEET_H TRANSPARENT).
  set (cells := grid (range ROWS) (range COLS)).
  pose proof (grid_loop_store (length σ) (σ ++ [S0]) (range ROWS) (range COLS))
    as Hloop.
  specialize (Hloop ltac:(rewrite length_app; simpl; lia)).
  specialize (Hloop ltac:(intros r c Hr%elem_range Hc%elem_range;
    apply render_is_Some; unfold ROWS, COLS in *; lia) S0 []).
  rewrite app_nil_r in Hloop.
  rewrite (list_insert_id (σ ++ [S0])) in Hloop
    by (rewrite lookup_app_r by lia; by rewrite Nat.sub_diag).
  fold cells in Hloop.
  exists (<[length σ := foldl paste_cell S0 cells]> (σ ++ [S0])
          ++ frames_of cells).
  split_and!.
  - unfold generate_sprite_sheet. rewrite bind_run.
    unfold Image_new. fold S0. rewrite bind_run. by rewrite Hloop.
  - rewrite length_app, length_insert, length_app. unfold frames_of.
    rewrite length_fmap. simpl. lia.
  - intros i Hi.
    rewrite lookup_app_l by (rewrite length_insert, length_app; simpl; lia).
    rewrite list_lookup_insert_ne by lia. by rewrite lookup_app_l.
  - intros r c Hr Hc. destruct (render_is_Some r c Hr Hc) as [im Him].
    split; [by eexists|].
    rewrite lookup_app_r by (rewrite length_insert, length_app; simpl; lia).
    rewrite length_insert, length_app. simpl.
    replace (length σ + 1 + Z.to_nat (6 * r + c) - (length σ + 1))%nat
      with (Z.to_nat (6 * r + c)) by lia.
    unfold cells. rewrite frames_of_grid_lookup by done.
    unfold frame_of. by rewrite Him.
Qed.

(** ** Columns outside 0..5 in the rows without tables *)

Lemma bind_ext {A B} (m : M A) (k k' : A → M B) (σ : Heap) :
  (∀ a σ', k a σ' = k' a σ') → (m ≫= k) σ = (m ≫= k') σ.
Proof.
  intros Hk. rewrite !bind_run. destruct (m σ) as [[a σ']|]; auto.
Qed.

Lemma seq_ext_l {B} (m m' : M unit) (k : M B) (σ : Heap) :
  (∀ σ', m σ' = m' σ') → (m ;; k) σ = (m' ;; k) σ.
Proof. intros Hm. by rewrite !bind_run, Hm. Qed.

Lemma draw_frame_sleeping (col : Z) (σ : Heap) :
  draw_frame 2 col σ
  = (img ← Image_new W H TRANSPARENT;
     (draw_desk img ;;
      draw_monitors img MONITOR_BLUE MONITOR_GREEN 2 ;;
      draw_chair img ;;
      draw_body_sitting img 1 "slumped" ;;
      rect img 28 35 8 6 HOODIE ;;
      rect img 29 36 6 3 SKIN_SHADOW ;;
      rect img 27 34 10 2 HOODIE_LIGHT ;;
      draw_zzz img col) ;;
     mret img) σ.
Proof. reflexivity. Qed.

(** Extra X15.  The sleeping row accepts every column and loops: the column
    is only read by the sleep marks, so [draw_frame(2, col)] returns the
    raster of [draw_frame(2, col % 6)], for negative columns and columns
    above 5 as well. *)
Theorem draw_frame_sleeping_wraps (col : Z) (σ : Heap) :
  draw_frame 2 col σ = draw_frame 2 (col `mod` 6) σ.
Proof.
  rewrite !draw_frame_sleeping.
  apply bind_ext. intros img σ1.
  apply seq_ext_l. intros σ2.
  do 7 (apply seq_ext; intros ?).
  apply draw_zzz_mod. by rewrite Z.mod_mod.
Qed.

Lemma draw_frame_warmup_late (col : Z) (σ : Heap) :
  5 ≤ col → draw_frame 5 col σ = draw_frame 5 5 σ.
Proof.
  intros Hcol. unfold draw_frame. cbv zeta.
  rewrite (proj2 (Z.ltb_ge col 2)) by lia.
  rewrite (proj2 (Z.ltb_ge col 4)) by lia.
  rewrite (proj2 (Z.eqb_neq col 4)) by lia.
  reflexivity.
Qed.

Lemma draw_frame_warmup_early (col : Z) (σ : Heap) :
  col < 0 → draw_frame 5 col σ = draw_frame 5 (-1) σ.
Proof.
  intros Hcol. unfold draw_frame. cbv zeta.
  rewrite (proj2 (Z.ltb_lt col 2)) by lia.
  rewrite (proj2 (Z.eqb_neq col 1)) by lia.
  rewrite (proj2 (Z.eqb_neq col 0)) by lia.
  reflexivity.
Qed.

(** Extra X16.  The warm-up row accepts every column and saturates: it
    only compares the column with 0, 1, 2, 3 and 4, so [draw_frame(5, col)]
    behaves as [draw_frame(5, max(-1, min(col, 5)))]: every column from 5 on
    gives the frame of column 5, and all negative columns give the frame of
    column -1. *)
Theorem draw_frame_warmup_saturates (col : Z) (σ : Heap) :
  draw_frame 5 col σ = draw_frame 5 (Z.max (-1) (Z.min col 5)) σ.
Proof.
  destruct (Z_lt_dec col 0); [|destruct (Z_le_dec 5 col)].
  - rewrite Z.min_l, Z.max_l by lia. by apply draw_frame_warmup_early.
  - rewrite Z.min_r, Z.max_r by lia. by apply draw_frame_warmup_late.
  - by rewrite Z.min_l, Z.max_r by lia.
Qed.
